(** * LatticeMap (KMCLib, src/c++/src/latticemap.cpp)

    A shallow embedding of the LatticeMap class: the cell encoder
    [indicesFromCell], the iterative cell decoder [indexToCell], the
    neighbour enumeration [neighbourIndices], the superset aggregator
    [supersetNeighbourIndices] and the constructor.

    Modelling choices:
    - C++ [int] arithmetic is modelled on [Z]; C++ [/] on non-negative
      operands is [Z.quot] (truncation), which the code only meets with
      non-negative operands for valid indices.  The model does not wrap:
      each theorem assumes bounds ([int_map], [int_shell] or explicit
      ones) under which every intermediate [int] of the code stays in
      [[INT_MIN, INT_MAX]], so that [Z] and C++ agree.
    - [std::vector<int>] is a [list Z], [std::vector<bool>] a [list bool];
      [operator[]] past the end is undefined in C++: the model reads the
      default value there, and every theorem that reads the arrays
      assumes they have length 3 ([wf], or explicit lengths).
    - The file-level [static std::vector<int> tmp_cell_indices__] is the
      global [store]; the operations run in a small state-and-exception
      monad over it.  [indicesFromCell] returns a reference to that
      buffer, modelled as the location [TmpCellIndices].
    - A [while] loop runs on fuel; running out of fuel is the outcome
      [NoTermination] (the C++ loop does not terminate there).
    - [std::vector] allocation or [resize] with a negative [int] size
      converts it to a huge [size_t] and throws [std::length_error]. *)

From Stdlib Require Import ZArith Lia List.
From stdpp Require Import base list sorting.
Import ListNotations.
Open Scope Z_scope.

(** ** Data model *)

Record LatticeMap := mkLatticeMap {
  n_basis_ : Z;
  repetitions_ : list Z;
  periodic_ : list bool
}.

(** [repetitions_[a]] and [periodic_[a]]. *)
Definition rep (m : LatticeMap) (a : nat) : Z := nth a (repetitions_ m) 0.
Definition per (m : LatticeMap) (a : nat) : bool := nth a (periodic_ m) false.

(** The global [tmp_cell_indices__]. *)
Record store := mkStore { tmp_cell_indices__ : list Z }.

(** The only reference [indicesFromCell] ever returns. *)
Inductive vref := TmpCellIndices.

Definition deref (st : store) (r : vref) : list Z :=
  match r with TmpCellIndices => tmp_cell_indices__ st end.

Inductive fault :=
| LengthError     (* std::length_error *)
| NoTermination.  (* a while loop that never exits *)

(** The state-and-exception monad over the global store. *)
Definition M (A : Type) := store -> fault + (A * store).

Definition ret {A} (a : A) : M A := fun st => inr (a, st).
Definition bind {A B} (c : M A) (k : A -> M B) : M B :=
  fun st => match c st with inl e => inl e | inr (a, st') => k a st' end.
Definition throw {A} (e : fault) : M A := fun _ => inl e.
Definition get : M store := fun st => inr (st, st).
Definition put (st : store) : M unit := fun _ => inr (tt, st).

Notation "x <- c ;; k" := (bind c (fun x => k))
  (at level 100, c at next level, right associativity).

(** Monadic left fold: a [for] loop over a list of values. *)
Fixpoint foldM {A B} (body : B -> A -> M B) (acc : B) (l : list A) : M B :=
  match l with
  | [] => ret acc
  | x :: l' => acc' <- body acc x ;; foldM body acc' l'
  end.

(** The values taken by [for (int x = lo; x <= hi; ++x)]. *)
Definition zrange (lo hi : Z) : list Z :=
  map (fun t => lo + Z.of_nat t) (seq 0 (Z.to_nat (hi - lo + 1))).

(** [std::vector::resize]: keep a prefix, pad with value-initialised ints. *)
Definition resize (n : nat) (l : list Z) : list Z :=
  firstn n l ++ repeat 0 (n - length l)%nat.

(** ** Constructor (lines 40-49) *)

Definition construct (n_basis : Z) (repetitions : list Z)
    (periodic : list bool) : M LatticeMap :=
  if n_basis <? 0 then throw LengthError
  else
    st <- get ;;
    _ <- put (mkStore (resize (Z.to_nat n_basis) (tmp_cell_indices__ st))) ;;
    ret (mkLatticeMap n_basis repetitions periodic).

(** ** Cell encoder [indicesFromCell] (lines 191-206) *)

(** [tmp_cell_indices__[l] = tmp3 + l]; an out-of-range write is undefined
    in C++, stdpp's [insert] leaves the list unchanged there. *)
Definition indicesFromCell (m : LatticeMap) (i j k : Z) : M vref :=
  let tmp1 := i * rep m 1 + j in
  let tmp2 := tmp1 * rep m 2 + k in
  let tmp3 := tmp2 * n_basis_ m in
  st <- get ;;
  _ <- put (mkStore (fold_left
                       (fun buf l => <[Z.to_nat l := tmp3 + l]> buf)
                       (zrange 0 (n_basis_ m - 1))
                       (tmp_cell_indices__ st))) ;;
  ret TmpCellIndices.

(** ** Cell decoder [indexToCell] (lines 211-252) *)

(** [while (cmp < bound) { ++c; cmp += step; }] *)
Fixpoint count_while (fuel : nat) (c cmp step bound : Z) : option Z :=
  match fuel with
  | O => None
  | S fuel' =>
      if cmp <? bound then count_while fuel' (c + 1) (cmp + step) step bound
      else Some c
  end.

(** [while (c < bound) { ++c; }] *)
Fixpoint incr_while (fuel : nat) (c bound : Z) : option Z :=
  match fuel with
  | O => None
  | S fuel' => if c <? bound then incr_while fuel' (c + 1) bound else Some c
  end.

(** The loops of [indexToCell] each run at most [idx] times when the
    repetitions are positive; the fuel [idx + 1] only cuts off loops that
    never terminate in C++. *)
Definition indexToCell (m : LatticeMap) (index : Z) : option (Z * Z * Z) :=
  let idx := Z.quot index (n_basis_ m) + 1 in
  let fuel := S (Z.to_nat idx) in
  let factor_i := rep m 1 * rep m 2 in
  match count_while fuel 0 factor_i factor_i idx with
  | None => None
  | Some cell_i =>
      let ci := cell_i * factor_i in
      let factor_j := rep m 2 in
      let idx_j := idx - ci in
      match count_while fuel 0 factor_j factor_j idx_j with
      | None => None
      | Some cell_j =>
          let cij := ci + cell_j * factor_j in
          let idx_k := idx - cij in
          match incr_while fuel 1 idx_k with
          | None => None
          | Some cell_k => Some (cell_i, cell_j, cell_k - 1)
          end
      end
  end.

(** ** Well-formed maps *)

Definition totalSites (m : LatticeMap) : Z :=
  rep m 0 * rep m 1 * rep m 2 * n_basis_ m.

Definition wf (m : LatticeMap) : Prop :=
  0 < n_basis_ m /\ length (repetitions_ m) = 3%nat /\
  length (periodic_ m) = 3%nat /\
  0 < rep m 0 /\ 0 < rep m 1 /\ 0 < rep m 2.

(** ** Neighbour enumeration [neighbourIndices] (lines 54-150) *)

(** The periodicity handling of each axis: one addition or subtraction of
    the repetition count, and only on a periodic axis. *)
Definition wrap (p : bool) (R x : Z) : Z :=
  if p then (if x <? 0 then x + R else if R <=? x then x - R else x)
  else x.

(** [x >= 0 && x < repetitions_[a]] *)
Definition in_bounds (R x : Z) : bool := (0 <=? x) && (x <? R).

(** The result vector is preallocated with [(2*shells+1)^3 * n_basis_]
    entries (a negative size throws [std::length_error]), filled by
    [memcpy] of [n_basis_] ints from each surviving cell and resized to
    [counter]: the model appends the copied blocks. *)
Definition neighbourIndices (m : LatticeMap) (index shells : Z) : M (list Z) :=
  match indexToCell m index with
  | None => throw NoTermination
  | Some (ci, cj, ck) =>
      let n_neighbours := (2 * shells + 1) ^ 3 * n_basis_ m in
      if n_neighbours <? 0 then throw LengthError
      else
        foldM (fun acc i =>
          let ii := wrap (per m 0) (rep m 0) i in
          if in_bounds (rep m 0) ii then
            foldM (fun acc j =>
              let jj := wrap (per m 1) (rep m 1) j in
              if in_bounds (rep m 1) jj then
                foldM (fun acc k =>
                  let kk := wrap (per m 2) (rep m 2) k in
                  if in_bounds (rep m 2) kk then
                    r <- indicesFromCell m ii jj kk ;;
                    st <- get ;;
                    ret (acc ++ firstn (Z.to_nat (n_basis_ m)) (deref st r))
                  else ret acc)
                  acc (zrange (ck - shells) (ck + shells))
              else ret acc)
              acc (zrange (cj - shells) (cj + shells))
          else ret acc)
          [] (zrange (ci - shells) (ci + shells))
  end.

(** ** Superset aggregator [supersetNeighbourIndices] (lines 155-186) *)

(** [std::unique]: collapse each run of equal adjacent values to one
    value. *)
Fixpoint unique (l : list Z) : list Z :=
  match l with
  | [] => []
  | x :: l' =>
      match l' with
      | [] => [x]
      | y :: _ => if Z.eqb x y then unique l' else x :: unique l'
      end
  end.

(** [std::sort] with [operator<] on ints; any sorting algorithm yields the
    same list, stdpp's merge sort is used. *)
Definition supersetNeighbourIndices (m : LatticeMap) (indices : list Z)
    : M (list Z) :=
  superset <- foldM (fun acc index =>
                neighbours <- neighbourIndices m index 1 ;;
                ret (acc ++ neighbours)) [] indices ;;
  ret (unique (merge_sort Z.le superset)).

(** ** Derived views used by the proofs *)

(** The values the loop of [indicesFromCell] writes, in order. *)
Definition cell_indices (m : LatticeMap) (i j k : Z) : list Z :=
  map (fun l => ((i * rep m 1 + j) * rep m 2 + k) * n_basis_ m + l)
      (zrange 0 (n_basis_ m - 1)).

(** The coordinates that one loop of [neighbourIndices] keeps on an
    axis: every candidate, wrapped, then the bounds test. *)
Definition axis_cells (p : bool) (R c s : Z) : list Z :=
  List.filter (in_bounds R) (map (wrap p R) (zrange (c - s) (c + s))).

Definition neighbours_of (m : LatticeMap) (ci cj ck s : Z) : list Z :=
  flat_map (fun ii =>
    flat_map (fun jj =>
      flat_map (fun kk => cell_indices m ii jj kk)
        (axis_cells (per m 2) (rep m 2) ck s))
      (axis_cells (per m 1) (rep m 1) cj s))
    (axis_cells (per m 0) (rep m 0) ci s).

(** The enumeration around the decoded cell of [index]. *)
Definition neighbours_at (m : LatticeMap) (index s : Z) : list Z :=
  match indexToCell m index with
  | Some (ci, cj, ck) => neighbours_of m ci cj ck s
  | None => []
  end.

(** Following the words of spec section 4.4 (a second definition, to be
    compared with [axis_cells]): a periodic axis wraps every candidate
    fully into [[0, R)] by modulo, a non-periodic axis drops candidates
    outside [[0, R)]. *)
Definition spec_axis_cells (p : bool) (R c s : Z) : list Z :=
  if p then map (fun x => x mod R) (zrange (c - s) (c + s))
  else List.filter (in_bounds R) (zrange (c - s) (c + s)).

Definition spec_neighbours (m : LatticeMap) (ci cj ck s : Z) : list Z :=
  flat_map (fun ii =>
    flat_map (fun jj =>
      flat_map (fun kk => cell_indices m ii jj kk)
        (spec_axis_cells (per m 2) (rep m 2) ck s))
      (spec_axis_cells (per m 1) (rep m 1) cj s))
    (spec_axis_cells (per m 0) (rep m 0) ci s).

(** The shared buffer is long enough for this map's cells: the
    constructor leaves it with exactly [n_basis_] entries. *)
Definition buffer_fits (m : LatticeMap) (st : store) : Prop :=
  (Z.to_nat (n_basis_ m) <= length (tmp_cell_indices__ st))%nat.

(** ** The range of C++ [int]

    The code computes in 32-bit [int]; the model computes in [Z], which
    agrees with it as long as no intermediate value leaves
    [[INT_MIN, INT_MAX]] (past that, signed overflow and the conversion
    of an out-of-range [double] to [int] are undefined in C++).  The
    theorems assume bounds that keep every intermediate value in range. *)

Definition INT_MIN : Z := - 2 ^ 31.
Definition INT_MAX : Z := 2 ^ 31 - 1.

(** Every site index fits in an [int].  Then for a valid index all values
    of [indexToCell] ([idx], [factor_i], the running [cmp], ...) and of
    [indicesFromCell] on a cell of the grid ([tmp1], [tmp2], [tmp3 + l])
    lie in [[0, totalSites]]. *)
Definition int_map (m : LatticeMap) : Prop := totalSites m <= INT_MAX.

(** For a shell radius [shells >= 0]: the size
    [pow(2*shells+1, 3) * n_basis_] converted to [int] fits, and so do the
    loop counters, which reach [c + shells + 1] for a cell coordinate
    [c < R <= totalSites]. *)
Definition int_shell (m : LatticeMap) (s : Z) : Prop :=
  (2 * s + 1) ^ 3 * n_basis_ m <= INT_MAX /\ totalSites m + s + 1 <= INT_MAX.

(** * Proofs *)

(** ** The decoder loops *)

Lemma count_while_spec fuel : forall c cmp step bound,
  0 < step -> 0 <= c -> cmp = (c + 1) * step -> c * step < bound ->
  bound - c < Z.of_nat fuel ->
  count_while fuel c cmp step bound = Some ((bound - 1) / step).
Proof.
  induction fuel as [|fuel IH]; intros c cmp step bound Hs Hc Hcmp Hlt Hf.
  - simpl in Hf. nia.
  - simpl. destruct (cmp <? bound) eqn:E.
    + apply Z.ltb_lt in E. apply IH; lia.
    + apply Z.ltb_ge in E. f_equal.
      apply (Z.div_unique_pos _ _ _ (bound - 1 - c * step)); lia.
Qed.

Lemma incr_while_spec fuel : forall c bound,
  c <= bound -> bound - c < Z.of_nat fuel -> incr_while fuel c bound = Some bound.
Proof.
  induction fuel as [|fuel IH]; intros c bound Hc Hf; simpl in *; [lia|].
  destruct (c <? bound) eqn:E.
  - apply Z.ltb_lt in E. apply IH; lia.
  - apply Z.ltb_ge in E. f_equal. lia.
Qed.

(** Splitting a remainder modulo a product of two positive factors. *)
Lemma mod_mul_split (a b c : Z) : 0 <= a -> 0 < b -> 0 < c ->
  a mod (b * c) = a mod b + b * ((a / b) mod c) /\
  (a mod (b * c)) / b = (a / b) mod c.
Proof.
  intros Ha Hb Hc.
  assert (Hm : a mod (b * c) = a mod b + b * ((a / b) mod c)).
  { symmetry. apply (Z.mod_unique_pos _ _ ((a / b) / c)).
    - pose proof (Z.mod_pos_bound a b Hb).
      pose proof (Z.mod_pos_bound (a / b) c Hc). nia.
    - pose proof (Z.div_mod a b ltac:(lia)).
      pose proof (Z.div_mod (a / b) c ltac:(lia)). nia. }
  split; [exact Hm|]. rewrite Hm.
  rewrite Z.add_comm, Z.mul_comm, Z.div_add_l by lia.
  rewrite (Z.div_small (a mod b) b) by (apply Z.mod_pos_bound; lia). lia.
Qed.

(** The decoder in closed form, for every non-negative index. *)
Lemma indexToCell_closed (m : LatticeMap) (index : Z) :
  wf m -> 0 <= index ->
  let cl := index / n_basis_ m in
  indexToCell m index =
    Some (cl / (rep m 1 * rep m 2), (cl / rep m 2) mod rep m 1,
          cl mod rep m 2).
Proof.
  intros (Hn & _ & _ & H0 & H1 & H2) Hi cl.
  assert (Hcl : 0 <= cl) by (apply Z.div_pos; lia).
  unfold indexToCell. rewrite Z.quot_div_nonneg by lia. fold cl.
  set (F := rep m 1 * rep m 2).
  assert (HF : 0 < F) by (unfold F; nia).
  assert (Hfuel : Z.of_nat (S (Z.to_nat (cl + 1))) = cl + 2) by lia.
  rewrite (count_while_spec _ 0 F F (cl + 1)) by lia.
  replace (cl + 1 - 1) with cl by lia.
  pose proof (Z.mod_pos_bound cl F HF) as HmF.
  pose proof (Z.div_mod cl F ltac:(lia)) as HdF.
  assert (Hj : cl + 1 - cl / F * F = cl mod F + 1) by lia.
  rewrite Hj.
  rewrite (count_while_spec _ 0 (rep m 2) (rep m 2) (cl mod F + 1)) by
    (try lia; pose proof (Z.mod_le cl F Hcl HF); lia).
  replace (cl mod F + 1 - 1) with (cl mod F) by lia.
  destruct (mod_mul_split cl (rep m 2) (rep m 1)) as [Hs1 Hs2]; try lia.
  unfold F in *.
  replace (rep m 1 * rep m 2) with (rep m 2 * rep m 1) in * by lia.
  rewrite Hs2.
  pose proof (Z.mod_pos_bound cl (rep m 2) H2).
  pose proof (Z.mod_le cl (rep m 2 * rep m 1) Hcl ltac:(nia)).
  assert (Hk : cl + 1 - (cl / (rep m 2 * rep m 1) * (rep m 2 * rep m 1)
                + (cl / rep m 2) mod rep m 1 * rep m 2) = cl mod rep m 2 + 1)
    by lia.
  pose proof (Z.mod_le cl (rep m 2) Hcl H2).
  rewrite Hk, (incr_while_spec _ 1 (cl mod rep m 2 + 1)) by lia.
  do 2 f_equal. lia.
Qed.

(** ** The encoder *)

Lemma zrange_0 (N : Z) : 0 <= N ->
  zrange 0 (N - 1) = map (fun t => 0 + Z.of_nat t) (seq 0 (Z.to_nat N)).
Proof. intros. unfold zrange. do 3 f_equal. lia. Qed.

Lemma fold_insert_prefix (f : Z -> Z) (N : nat) : forall buf : list Z,
  (N <= length buf)%nat ->
  fold_left (fun b l => <[Z.to_nat l := f l]> b)
    (map (fun t => 0 + Z.of_nat t) (seq 0 N)) buf
  = map (fun t => f (0 + Z.of_nat t)) (seq 0 N) ++ drop N buf.
Proof.
  induction N as [|N IH]; intros buf Hlen; [reflexivity|].
  rewrite seq_S, !map_app, fold_left_app, IH by lia. simpl.
  replace (Z.to_nat (0 + Z.of_nat N)) with
    (length (map (fun t => f (0 + Z.of_nat t)%Z) (seq 0 N)) + 0)%nat
    by (rewrite length_map, length_seq; lia).
  rewrite insert_app_r.
  destruct (lookup_lt_is_Some_2 buf N) as [x Hx]; [lia|].
  rewrite (drop_S buf x N Hx). simpl. rewrite <- app_assoc. reflexivity.
Qed.

(** One call of [indicesFromCell] when the shared buffer holds at least
    [n_basis_] entries: its first [n_basis_] entries become the cell's
    indices, the rest and the length are kept, and the result is the
    reference to the buffer. *)
Lemma indicesFromCell_run (m : LatticeMap) (st : store) (i j k : Z) :
  0 <= n_basis_ m ->
  (Z.to_nat (n_basis_ m) <= length (tmp_cell_indices__ st))%nat ->
  indicesFromCell m i j k st =
    inr (TmpCellIndices,
         mkStore (cell_indices m i j k
                  ++ drop (Z.to_nat (n_basis_ m)) (tmp_cell_indices__ st))).
Proof.
  intros Hn Hlen. unfold indicesFromCell, bind, get, put, ret, cell_indices.
  rewrite zrange_0 by lia. rewrite fold_insert_prefix by lia.
  rewrite map_map. reflexivity.
Qed.

Lemma length_zrange (lo hi : Z) :
  length (zrange lo hi) = Z.to_nat (hi - lo + 1).
Proof. unfold zrange. rewrite length_map, length_seq. reflexivity. Qed.

Lemma length_cell_indices (m : LatticeMap) (i j k : Z) : 0 <= n_basis_ m ->
  length (cell_indices m i j k) = Z.to_nat (n_basis_ m).
Proof.
  intros. unfold cell_indices. rewrite length_map, length_zrange.
  f_equal. lia.
Qed.

Lemma in_zrange (lo hi x : Z) : In x (zrange lo hi) <-> lo <= x <= hi.
Proof.
  unfold zrange. rewrite in_map_iff. split.
  - intros (t & <- & Ht). apply in_seq in Ht. lia.
  - intros H. exists (Z.to_nat (x - lo)). split; [lia|].
    apply in_seq. lia.
Qed.

Lemma nth_error_zrange (lo hi : Z) (t : nat) :
  (t < Z.to_nat (hi - lo + 1))%nat -> nth_error (zrange lo hi) t = Some (lo + Z.of_nat t).
Proof.
  intros Ht. unfold zrange. rewrite nth_error_map, nth_error_seq.
  destruct (Nat.ltb_spec t (Z.to_nat (hi - lo + 1))); [reflexivity|lia].
Qed.

(** ** Loops as list functions *)

Lemma foldM_append {A} (P : store -> Prop) (f : A -> list Z)
    (body : list Z -> A -> M (list Z)) :
  (forall acc x st, P st ->
     exists st', body acc x st = inr (acc ++ f x, st') /\ P st') ->
  forall l acc st, P st ->
  exists st', foldM body acc l st = inr (acc ++ flat_map f l, st') /\ P st'.
Proof.
  intros Hbody l. induction l as [|x l IH]; intros acc st HP; simpl.
  - exists st. rewrite app_nil_r. split; [reflexivity|exact HP].
  - unfold bind. destruct (Hbody acc x st HP) as (st1 & -> & HP1).
    destruct (IH (acc ++ f x) st1 HP1) as (st2 & -> & HP2).
    exists st2. rewrite app_assoc. split; [reflexivity|exact HP2].
Qed.

Lemma flat_map_guard {B} (b : Z -> bool) (h : Z -> Z) (g : Z -> list B)
    (l : list Z) :
  flat_map (fun x => if b (h x) then g (h x) else []) l
  = flat_map g (List.filter b (map h l)).
Proof.
  induction l as [|x l IH]; simpl; [reflexivity|].
  destruct (b (h x)); simpl; rewrite IH; reflexivity.
Qed.

Lemma indicesFromCell_copy (m : LatticeMap) (st : store) (i j k : Z) :
  0 <= n_basis_ m -> buffer_fits m st ->
  exists st', indicesFromCell m i j k st = inr (TmpCellIndices, st') /\
    take (Z.to_nat (n_basis_ m)) (deref st' TmpCellIndices)
      = cell_indices m i j k /\
    length (tmp_cell_indices__ st') = length (tmp_cell_indices__ st).
Proof.
  intros Hn Hfit. rewrite indicesFromCell_run by assumption.
  eexists. split; [reflexivity|]. simpl. split.
  - apply take_app_length'. rewrite length_cell_indices by lia. reflexivity.
  - rewrite length_app, length_cell_indices, length_drop by lia.
    unfold buffer_fits in Hfit. lia.
Qed.

(** [neighbourIndices] on a valid cell with [shells >= 0]: the
    concatenation, over the kept coordinates of each axis, of the cells'
    indices. *)
Lemma neighbourIndices_run (m : LatticeMap) (index s ci cj ck : Z)
    (st : store) :
  wf m -> indexToCell m index = Some (ci, cj, ck) -> 0 <= s ->
  buffer_fits m st ->
  exists st', neighbourIndices m index s st
              = inr (neighbours_of m ci cj ck s, st') /\ buffer_fits m st'.
Proof.
  intros Hwf Hcell Hs Hfit.
  assert (Hn : 0 < n_basis_ m) by apply Hwf.
  unfold neighbourIndices. rewrite Hcell.
  replace ((2 * s + 1) ^ 3 * n_basis_ m <? 0) with false
    by (symmetry; apply Z.ltb_ge; nia).
  assert (Hform : neighbours_of m ci cj ck s =
    flat_map (fun i =>
      let ii := wrap (per m 0) (rep m 0) i in
      if in_bounds (rep m 0) ii then
        flat_map (fun j =>
          let jj := wrap (per m 1) (rep m 1) j in
          if in_bounds (rep m 1) jj then
            flat_map (fun k =>
              let kk := wrap (per m 2) (rep m 2) k in
              if in_bounds (rep m 2) kk then cell_indices m ii jj kk else [])
              (zrange (ck - s) (ck + s))
          else []) (zrange (cj - s) (cj + s))
      else []) (zrange (ci - s) (ci + s))).
  { unfold neighbours_of, axis_cells. rewrite <- flat_map_guard.
    apply flat_map_ext. intros i. destruct (in_bounds _ _); [|reflexivity].
    rewrite <- flat_map_guard.
    apply flat_map_ext. intros j. destruct (in_bounds _ _); [|reflexivity].
    rewrite <- flat_map_guard. reflexivity. }
  rewrite Hform.
  refine (foldM_append (buffer_fits m) _ _ _ _ [] _ Hfit).
  intros acc i st1 Hf1. cbv zeta.
  destruct (in_bounds (rep m 0) (wrap (per m 0) (rep m 0) i)).
  2:{ exists st1. rewrite app_nil_r. split; [reflexivity|exact Hf1]. }
  apply (foldM_append (buffer_fits m)); [|exact Hf1].
  intros acc2 j st2 Hf2.
  destruct (in_bounds (rep m 1) (wrap (per m 1) (rep m 1) j)).
  2:{ exists st2. rewrite app_nil_r. split; [reflexivity|exact Hf2]. }
  apply (foldM_append (buffer_fits m)); [|exact Hf2].
  intros acc3 k st3 Hf3.
  destruct (in_bounds (rep m 2) (wrap (per m 2) (rep m 2) k)).
  2:{ exists st3. rewrite app_nil_r. split; [reflexivity|exact Hf3]. }
  destruct (indicesFromCell_copy m st3
              (wrap (per m 0) (rep m 0) i) (wrap (per m 1) (rep m 1) j)
              (wrap (per m 2) (rep m 2) k)) as (st4 & E & Htake & Hlen);
    [lia|exact Hf3|].
  unfold bind. rewrite E. unfold get, ret. rewrite Htake.
  exists st4. split; [reflexivity|]. unfold buffer_fits in *. lia.
Qed.

(** ** The mapping law *)

Lemma cell_linear (cl R1 R2 : Z) : 0 <= cl -> 0 < R1 -> 0 < R2 ->
  (cl / (R1 * R2) * R1 + (cl / R2) mod R1) * R2 + cl mod R2 = cl.
Proof.
  intros Hcl H1 H2.
  rewrite Z.mul_comm with (n := R1), <- Z.div_div by lia.
  pose proof (Z.div_mod (cl / R2) R1 ltac:(lia)).
  pose proof (Z.div_mod cl R2 ltac:(lia)). nia.
Qed.

(** Decoding the flat index of a valid (i, j, k, l) tuple gives it back. *)
Lemma flat_decode (m : LatticeMap) (i j k l : Z) : wf m ->
  0 <= i < rep m 0 -> 0 <= j < rep m 1 -> 0 <= k < rep m 2 ->
  0 <= l < n_basis_ m ->
  let x := ((i * rep m 1 + j) * rep m 2 + k) * n_basis_ m + l in
  x / n_basis_ m = (i * rep m 1 + j) * rep m 2 + k /\
  x mod n_basis_ m = l /\
  indexToCell m x = Some (i, j, k).
Proof.
  intros Hwf Hi Hj Hk Hl x.
  pose proof Hwf as (Hn & _ & _ & H0 & H1 & H2).
  assert (Hq : x / n_basis_ m = (i * rep m 1 + j) * rep m 2 + k).
  { symmetry. apply (Z.div_unique_pos _ _ _ l); [lia|unfold x; ring]. }
  assert (Hr : x mod n_basis_ m = l).
  { symmetry. apply (Z.mod_unique_pos _ _ ((i * rep m 1 + j) * rep m 2 + k));
      [lia|unfold x; ring]. }
  split; [exact Hq|]. split; [exact Hr|].
  rewrite indexToCell_closed by (auto; unfold x; nia). cbv zeta. rewrite Hq.
  set (cl := (i * rep m 1 + j) * rep m 2 + k).
  assert (E1 : cl / (rep m 1 * rep m 2) = i).
  { symmetry. apply (Z.div_unique_pos _ _ _ (j * rep m 2 + k)); [nia|unfold cl; ring]. }
  assert (E2 : cl / rep m 2 = i * rep m 1 + j).
  { symmetry. apply (Z.div_unique_pos _ _ _ k); [lia|unfold cl; ring]. }
  assert (E3 : (i * rep m 1 + j) mod rep m 1 = j).
  { symmetry. apply (Z.mod_unique_pos _ _ i); [lia|ring]. }
  assert (E4 : cl mod rep m 2 = k).
  { symmetry. apply (Z.mod_unique_pos _ _ (i * rep m 1 + j)); [lia|unfold cl; ring]. }
  rewrite E1, E2, E3, E4. reflexivity.
Qed.

(** A valid index decodes to a cell inside the grid, from which the
    mapping law rebuilds it. *)
Lemma indexToCell_range (m : LatticeMap) (index : Z) :
  wf m -> 0 <= index < totalSites m ->
  exists i j k, indexToCell m index = Some (i, j, k) /\
    0 <= i < rep m 0 /\ 0 <= j < rep m 1 /\ 0 <= k < rep m 2 /\
    index = ((i * rep m 1 + j) * rep m 2 + k) * n_basis_ m
            + index mod n_basis_ m.
Proof.
  intros Hwf Hidx. pose proof Hwf as (Hn & _ & _ & H0 & H1 & H2).
  rewrite indexToCell_closed by (auto; lia). cbv zeta.
  set (cl := index / n_basis_ m).
  assert (Hcl : 0 <= cl < rep m 0 * (rep m 1 * rep m 2)).
  { unfold cl, totalSites in *. split; [apply Z.div_pos; lia|].
    apply Z.div_lt_upper_bound; nia. }
  do 3 eexists. split; [reflexivity|].
  repeat split.
  - apply Z.div_pos; nia.
  - apply Z.div_lt_upper_bound; nia.
  - apply Z.mod_pos_bound; lia.
  - apply Z.mod_pos_bound; lia.
  - apply Z.mod_pos_bound; lia.
  - apply Z.mod_pos_bound; lia.
  - rewrite cell_linear by lia. unfold cl.
    pose proof (Z.div_mod index (n_basis_ m) ltac:(lia)). lia.
Qed.

Lemma nth_error_cell_indices (m : LatticeMap) (i j k l : Z) :
  0 <= l < n_basis_ m ->
  nth_error (cell_indices m i j k) (Z.to_nat l)
  = Some (((i * rep m 1 + j) * rep m 2 + k) * n_basis_ m + l).
Proof.
  intros Hl. unfold cell_indices. rewrite nth_error_map, nth_error_zrange by lia.
  simpl. f_equal. lia.
Qed.

Lemma sorted_seq_shift (c : Z) (N : nat) : forall a : nat,
  StronglySorted Z.lt (map (fun t => c + Z.of_nat t) (seq a N)).
Proof.
  induction N as [|N IH]; intros a; simpl; constructor; [apply IH|].
  apply List.Forall_forall. intros y Hy. apply in_map_iff in Hy.
  destruct Hy as (t & <- & Ht). apply in_seq in Ht. lia.
Qed.

Lemma cell_indices_sorted (m : LatticeMap) (i j k : Z) :
  StronglySorted Z.lt (cell_indices m i j k).
Proof.
  unfold cell_indices, zrange. rewrite map_map.
  set (c := ((i * rep m 1 + j) * rep m 2 + k) * n_basis_ m).
  rewrite (map_ext _ (fun t => c + Z.of_nat t)) by (intros; lia).
  apply sorted_seq_shift.
Qed.

Lemma in_cell_indices (m : LatticeMap) (i j k x : Z) :
  In x (cell_indices m i j k) <->
  exists l, 0 <= l < n_basis_ m /\
    x = ((i * rep m 1 + j) * rep m 2 + k) * n_basis_ m + l.
Proof.
  unfold cell_indices. rewrite in_map_iff. split.
  - intros (l & <- & Hl). apply in_zrange in Hl. exists l. split; [lia|reflexivity].
  - intros (l & Hl & ->). exists l. split; [reflexivity|]. apply in_zrange. lia.
Qed.

(** ** The axes of the enumeration *)

Lemma wrap_periodic_kept (R x : Z) : 0 < R ->
  in_bounds R (wrap true R x) = (-R <=? x) && (x <? 2 * R).
Proof.
  intros HR. unfold in_bounds, wrap.
  destruct (Z.ltb_spec x 0); [|destruct (Z.leb_spec R x)];
  destruct (Z.leb_spec 0 (x + R)), (Z.ltb_spec (x + R) R),
    (Z.leb_spec 0 (x - R)), (Z.ltb_spec (x - R) R),
    (Z.leb_spec 0 x), (Z.ltb_spec x R), (Z.leb_spec (-R) x),
    (Z.ltb_spec x (2 * R)); simpl; lia.
Qed.

Lemma wrap_periodic_mod (R x : Z) : 0 < R -> -R <= x < 2 * R ->
  wrap true R x = x mod R.
Proof.
  intros HR Hx. unfold wrap.
  destruct (Z.ltb_spec x 0); [|destruct (Z.leb_spec R x)].
  - apply (Z.mod_unique_pos _ _ (-1)); lia.
  - apply (Z.mod_unique_pos _ _ 1); lia.
  - symmetry. apply Z.mod_small. lia.
Qed.

Lemma filter_map_wrap (R : Z) (l : list Z) : 0 < R ->
  List.filter (in_bounds R) (map (wrap true R) l)
  = map (fun x => x mod R)
      (List.filter (fun x => (-R <=? x) && (x <? 2 * R)) l).
Proof.
  intros HR. induction l as [|x l IH]; cbn [List.filter map]; [reflexivity|].
  rewrite wrap_periodic_kept by exact HR.
  destruct ((-R <=? x) && (x <? 2 * R)) eqn:E; cbn [map]; rewrite IH;
    [|reflexivity].
  apply andb_true_iff in E as [E1 E2]. apply Z.leb_le in E1.
  apply Z.ltb_lt in E2. rewrite wrap_periodic_mod by lia. reflexivity.
Qed.

(** A periodic axis keeps exactly the candidates in [[-R, 2R)], each
    wrapped to its residue modulo [R]. *)
Lemma axis_cells_periodic (R c s : Z) : 0 < R ->
  axis_cells true R c s
  = map (fun x => x mod R)
      (List.filter (fun x => (-R <=? x) && (x <? 2 * R))
         (zrange (c - s) (c + s))).
Proof. intros. unfold axis_cells. apply filter_map_wrap. assumption. Qed.

(** A non-periodic axis drops the candidates outside [[0, R)]. *)
Lemma axis_cells_nonperiodic (R c s : Z) :
  axis_cells false R c s = List.filter (in_bounds R) (zrange (c - s) (c + s)).
Proof. unfold axis_cells, wrap. rewrite map_id. reflexivity. Qed.

Lemma filter_all {A} (f : A -> bool) (l : list A) :
  (forall x, In x l -> f x = true) -> List.filter f l = l.
Proof.
  intros H. induction l as [|x l IH]; simpl; [reflexivity|].
  rewrite H by (left; reflexivity). f_equal. apply IH. intros y Hy.
  apply H. right. exact Hy.
Qed.

(** With [s <= R] no candidate of a periodic axis is lost. *)
Lemma axis_cells_small_shell (p : bool) (R c s : Z) :
  0 <= c < R -> (p = true -> s <= R) ->
  axis_cells p R c s = spec_axis_cells p R c s.
Proof.
  intros Hc Hs. destruct p.
  - specialize (Hs eq_refl). rewrite axis_cells_periodic by lia. unfold spec_axis_cells.
    rewrite filter_all; [reflexivity|].
    intros x Hx. apply in_zrange in Hx.
    apply andb_true_iff. split; [apply Z.leb_le|apply Z.ltb_lt]; lia.
  - rewrite axis_cells_nonperiodic. reflexivity.
Qed.

Lemma axis_cells_bounds (p : bool) (R c s x : Z) :
  In x (axis_cells p R c s) ->
  0 <= x < R /\ (p = false -> c - s <= x <= c + s).
Proof.
  unfold axis_cells. rewrite filter_In, in_map_iff.
  intros ((y & <- & Hy) & Hb). unfold in_bounds in Hb.
  apply andb_true_iff in Hb as [Hb1 Hb2].
  apply Z.leb_le in Hb1. apply Z.ltb_lt in Hb2. split; [lia|].
  intros ->. apply in_zrange in Hy. exact Hy.
Qed.

Lemma length_axis_cells (p : bool) (R c s : Z) :
  (length (axis_cells p R c s) <= Z.to_nat (2 * s + 1))%nat.
Proof.
  unfold axis_cells. etransitivity; [apply filter_length_le|].
  rewrite length_map, length_zrange. lia.
Qed.

Lemma axis_cells_zero (p : bool) (R c : Z) :
  0 <= c < R -> axis_cells p R c 0 = [c].
Proof.
  intros Hc. unfold axis_cells, zrange.
  replace (Z.to_nat (c + 0 - (c - 0) + 1)) with 1%nat by lia.
  cbn [seq map]. replace (c - 0 + Z.of_nat 0) with c by lia.
  assert (Hw : wrap p R c = c).
  { unfold wrap. destruct p; [|reflexivity].
    destruct (Z.ltb_spec c 0); [lia|]. destruct (Z.leb_spec R c); lia. }
  rewrite Hw. cbn [List.filter]. unfold in_bounds.
  destruct (Z.leb_spec 0 c), (Z.ltb_spec c R); simpl; try reflexivity; lia.
Qed.

Lemma length_flat_map_const {A B} (f : A -> list B) (l : list A) (c : nat) :
  (forall x, In x l -> length (f x) = c) ->
  length (flat_map f l) = (length l * c)%nat.
Proof.
  intros H. induction l as [|x l IH]; simpl; [reflexivity|].
  rewrite length_app, H by (left; reflexivity).
  rewrite IH; [reflexivity|]. intros y Hy. apply H. right. exact Hy.
Qed.

Lemma length_neighbours_of (m : LatticeMap) (ci cj ck s : Z) :
  0 <= n_basis_ m ->
  length (neighbours_of m ci cj ck s)
  = (length (axis_cells (per m 0) (rep m 0) ci s)
     * (length (axis_cells (per m 1) (rep m 1) cj s)
        * (length (axis_cells (per m 2) (rep m 2) ck s)
           * Z.to_nat (n_basis_ m))))%nat.
Proof.
  intros Hn. unfold neighbours_of.
  apply length_flat_map_const. intros ii _.
  apply length_flat_map_const. intros jj _.
  apply length_flat_map_const. intros kk _.
  apply length_cell_indices. exact Hn.
Qed.

(** Every index the enumeration produces is a flat index of a kept cell. *)
Lemma in_neighbours_of (m : LatticeMap) (ci cj ck s x : Z) :
  In x (neighbours_of m ci cj ck s) ->
  exists ii jj kk l,
    In ii (axis_cells (per m 0) (rep m 0) ci s) /\
    In jj (axis_cells (per m 1) (rep m 1) cj s) /\
    In kk (axis_cells (per m 2) (rep m 2) ck s) /\
    0 <= l < n_basis_ m /\
    x = ((ii * rep m 1 + jj) * rep m 2 + kk) * n_basis_ m + l.
Proof.
  unfold neighbours_of. rewrite in_flat_map.
  intros (ii & Hii & Hx). apply in_flat_map in Hx as (jj & Hjj & Hx).
  apply in_flat_map in Hx as (kk & Hkk & Hx).
  apply in_cell_indices in Hx as (l & Hl & ->).
  exists ii, jj, kk, l. auto.
Qed.

(** ** Sorting and deduplication *)

Lemma unique_in (l : list Z) (x : Z) : In x (unique l) <-> In x l.
Proof.
  induction l as [|y l IH]; simpl; [reflexivity|].
  destruct l as [|z l']; simpl in *; [reflexivity|].
  destruct (Z.eqb_spec y z) as [<-|Hne]; simpl; rewrite IH; simpl;
    split; intros; tauto.
Qed.

Lemma unique_sorted (l : list Z) :
  Sorted Z.le l -> StronglySorted Z.lt (unique l).
Proof.
  intros Hs. apply Sorted.Sorted_StronglySorted in Hs;
    [|intros ???; apply Z.le_trans].
  induction Hs as [|y l Hs IH Hall]; simpl; [constructor|].
  destruct l as [|z l']; [repeat constructor|].
  destruct (Z.eqb_spec y z) as [<-|Hne]; [exact IH|].
  constructor; [exact IH|].
  apply List.Forall_forall. intros w Hw. rewrite unique_in in Hw.
  rewrite List.Forall_forall in Hall. pose proof (Hall w Hw).
  pose proof (Hall z (or_introl eq_refl)).
  inversion Hs as [|? ? _ Hz]. subst.
  rewrite List.Forall_forall in Hz. destruct Hw as [<-|Hw]; [lia|].
  pose proof (Hz w Hw). lia.
Qed.

(** Two strictly ascending lists with the same elements are equal. *)
Lemma sorted_lt_ext (l1 l2 : list Z) :
  StronglySorted Z.lt l1 -> StronglySorted Z.lt l2 ->
  (forall x, In x l1 <-> In x l2) -> l1 = l2.
Proof.
  intros H1. revert l2.
  induction H1 as [|x1 l1 H1 IH Hx1]; intros l2 H2 Hin.
  - destruct l2 as [|x2 l2]; [reflexivity|].
    exfalso. apply (proj2 (Hin x2)). left. reflexivity.
  - destruct H2 as [|x2 l2 H2 Hx2].
    + exfalso. apply (proj1 (Hin x1)). left. reflexivity.
    + rewrite List.Forall_forall in Hx1, Hx2.
      assert (E : x1 = x2).
      { destruct (proj1 (Hin x1) (or_introl eq_refl)) as [|Ha]; [auto|].
        destruct (proj2 (Hin x2) (or_introl eq_refl)) as [|Hb]; [auto|].
        pose proof (Hx1 x2 Hb). pose proof (Hx2 x1 Ha). lia. }
      subst x2. f_equal. apply IH; [exact H2|].
      intros x. split; intros Hx.
      * destruct (proj1 (Hin x) (or_intror Hx)) as [Heq|]; [|assumption].
        subst. pose proof (Hx1 _ Hx). lia.
      * destruct (proj2 (Hin x) (or_intror Hx)) as [Heq|]; [|assumption].
        subst. pose proof (Hx2 _ Hx). lia.
Qed.

Lemma sort_unique_in (l : list Z) (x : Z) :
  In x (unique (merge_sort Z.le l)) <-> In x l.
Proof.
  rewrite unique_in, <- !list_elem_of_In.
  rewrite (merge_sort_Permutation Z.le l). reflexivity.
Qed.

Lemma sort_unique_sorted (l : list Z) :
  StronglySorted Z.lt (unique (merge_sort Z.le l)).
Proof. apply unique_sorted. apply Sorted_merge_sort. intros x y. lia. Qed.

Lemma foldM_append_forall {A} (P : store -> Prop) (f : A -> list Z)
    (body : list Z -> A -> M (list Z)) (l : list A) :
  (forall acc x st, In x l -> P st ->
     exists st', body acc x st = inr (acc ++ f x, st') /\ P st') ->
  forall acc st, P st ->
  exists st', foldM body acc l st = inr (acc ++ flat_map f l, st') /\ P st'.
Proof.
  induction l as [|x l IH]; intros Hbody acc st HP; simpl.
  - exists st. rewrite app_nil_r. split; [reflexivity|exact HP].
  - unfold bind.
    destruct (Hbody acc x st (or_introl eq_refl) HP) as (st1 & -> & HP1).
    destruct (IH (fun acc y st Hy => Hbody acc y st (or_intror Hy))
                (acc ++ f x) st1 HP1) as (st2 & -> & HP2).
    exists st2. rewrite app_assoc. split; [reflexivity|exact HP2].
Qed.

Lemma neighbourIndices_valid (m : LatticeMap) (index s : Z) (st : store) :
  wf m -> 0 <= index < totalSites m -> 0 <= s -> buffer_fits m st ->
  exists st', neighbourIndices m index s st = inr (neighbours_at m index s, st')
              /\ buffer_fits m st'.
Proof.
  intros Hwf Hidx Hs Hfit.
  destruct (indexToCell_range m index Hwf Hidx)
    as (ci & cj & ck & Hcell & _).
  unfold neighbours_at. rewrite Hcell.
  apply neighbourIndices_run; assumption.
Qed.

Lemma supersetNeighbourIndices_run (m : LatticeMap) (indices : list Z)
    (st : store) :
  wf m -> buffer_fits m st ->
  (forall y, In y indices -> 0 <= y < totalSites m) ->
  exists st', supersetNeighbourIndices m indices st
    = inr (unique (merge_sort Z.le (flat_map (fun y => neighbours_at m y 1)
                                              indices)), st')
    /\ buffer_fits m st'.
Proof.
  intros Hwf Hfit Hval. unfold supersetNeighbourIndices.
  destruct (foldM_append_forall (buffer_fits m) (fun y => neighbours_at m y 1)
     (fun acc index => neighbours <- neighbourIndices m index 1 ;;
                       ret (acc ++ neighbours)) indices)
    with (acc := @nil Z) (st := st) as (st' & E & Hf'); [|exact Hfit|].
  - intros acc y st1 Hy Hf1.
    destruct (neighbourIndices_valid m y 1 st1 Hwf (Hval y Hy))
      as (st2 & E2 & Hf2); [lia|exact Hf1|].
    exists st2. unfold bind. rewrite E2. split; [reflexivity|exact Hf2].
  - unfold bind at 1. rewrite E. exists st'. split; [reflexivity|exact Hf'].
Qed.

(** Constructing a map with basisCount [n'] leaves the shared buffer with
    [n'] entries; [indicesFromCell] of a map with a basisCount at most
    [n'] keeps that length. *)
Lemma length_resize (n : nat) (l : list Z) : length (resize n l) = n.
Proof. unfold resize. rewrite length_app, length_firstn, repeat_length. lia. Qed.

Lemma construct_then_indicesFromCell (m : LatticeMap) (n' : Z)
    (reps' : list Z) (per' : list bool) (st : store) (i j k : Z) :
  0 <= n_basis_ m <= n' ->
  exists st1 st2,
    construct n' reps' per' st = inr (mkLatticeMap n' reps' per', st1) /\
    indicesFromCell m i j k st1 = inr (TmpCellIndices, st2) /\
    length (deref st2 TmpCellIndices) = Z.to_nat n'.
Proof.
  intros Hn. unfold construct.
  replace (n' <? 0) with false by (symmetry; apply Z.ltb_ge; lia).
  eexists. eexists. split; [reflexivity|].
  rewrite indicesFromCell_run by (simpl; rewrite ?length_resize; lia).
  split; [reflexivity|]. simpl.
  rewrite length_app, length_cell_indices, length_drop, length_resize by lia.
  lia.
Qed.

(** * The claims *)

(** C1. Round trip: for every index in [[0, totalSites)], decoding it with
    [indexToCell] and encoding the cell with [indicesFromCell] gives a
    vector holding [index] at position [index mod basisCount].  The
    shared buffer must hold at least [basisCount] entries, as the
    constructor leaves it (a shorter one makes the write undefined).
    Assumed: a well-formed map whose [totalSites] fits in an [int]. *)
Theorem roundtrip_indexToCell_indicesFromCell (m : LatticeMap) (st : store)
    (index : Z)
    (R_int : int_map m) :
  wf m -> buffer_fits m st -> 0 <= index < totalSites m ->
  exists i j k st', indexToCell m index = Some (i, j, k) /\
    indicesFromCell m i j k st = inr (TmpCellIndices, st') /\
    nth_error (deref st' TmpCellIndices) (Z.to_nat (index mod n_basis_ m))
      = Some index.
Proof.
  intros Hwf Hfit Hidx. pose proof Hwf as (Hn & _).
  destruct (indexToCell_range m index Hwf Hidx)
    as (i & j & k & Hc & Hi & Hj & Hk & Hx).
  pose proof (Z.mod_pos_bound index (n_basis_ m) Hn) as Hl.
  exists i, j, k. eexists. split; [exact Hc|].
  rewrite indicesFromCell_run by (lia || exact Hfit).
  split; [reflexivity|]. simpl.
  rewrite nth_error_app1 by (rewrite length_cell_indices; lia).
  rewrite nth_error_cell_indices by lia. f_equal. lia.
Qed.

Lemma roundtrip_indexToCell_indicesFromCell_witness :
  exists i j k st', indexToCell (mkLatticeMap 2 [2; 3; 4] [true; false; true]) 17
      = Some (i, j, k) /\
    indicesFromCell (mkLatticeMap 2 [2; 3; 4] [true; false; true]) i j k
      (mkStore [0; 0]) = inr (TmpCellIndices, st') /\
    nth_error (deref st' TmpCellIndices) (Z.to_nat (17 mod 2)) = Some 17.
Proof.
  apply (roundtrip_indexToCell_indicesFromCell
           (mkLatticeMap 2 [2; 3; 4] [true; false; true]) (mkStore [0; 0]) 17).
  - cbv [int_map int_shell wf totalSites rep INT_MIN INT_MAX]. simpl. repeat split; lia.
  - unfold wf, rep. simpl. repeat split; lia.
  - unfold buffer_fits. simpl. lia.
  - unfold totalSites, rep. simpl. lia.
Defined.

(** C2. The iterative decode loops of [indexToCell] compute the direct
    decode: with [cl = index / basisCount], the cell is
    [(cl / (Rb*Rc), (cl / Rc) mod Rb, cl mod Rc)].  Assumed: a
    well-formed map whose [totalSites] fits in an [int], and a valid
    index. *)
Theorem indexToCell_direct_decode (m : LatticeMap) (index : Z)
    (R_int : int_map m) :
  wf m -> 0 <= index < totalSites m ->
  indexToCell m index =
    Some (index / n_basis_ m / (rep m 1 * rep m 2),
          (index / n_basis_ m / rep m 2) mod rep m 1,
          (index / n_basis_ m) mod rep m 2).
Proof. intros Hwf Hidx. apply indexToCell_closed; [exact Hwf|lia]. Qed.

Lemma indexToCell_direct_decode_witness :
  indexToCell (mkLatticeMap 2 [2; 3; 4] [true; false; true]) 41 =
    Some (41 / 2 / (3 * 4), (41 / 2 / 4) mod 3, (41 / 2) mod 4).
Proof.
  apply (indexToCell_direct_decode
           (mkLatticeMap 2 [2; 3; 4] [true; false; true]) 41).
  - cbv [int_map int_shell wf totalSites rep INT_MIN INT_MAX]. simpl. repeat split; lia.
  - unfold wf, rep. simpl. repeat split; lia.
  - unfold totalSites, rep. simpl. lia.
Defined.

(** C3, counterexample.  The vector [indicesFromCell] returns is the shared
    buffer, sized by the last constructed map: after constructing a map
    with basisCount 1 and then one with basisCount 2, the first map's
    [indicesFromCell(0,0,0)] returns two values, not one. *)
Lemma indicesFromCell_two_maps_counterexample :
  construct 1 [1; 1; 1] [false; false; false] (mkStore []) =
    inr (mkLatticeMap 1 [1; 1; 1] [false; false; false], mkStore [0]) /\
  construct 2 [1; 1; 1] [false; false; false] (mkStore [0]) =
    inr (mkLatticeMap 2 [1; 1; 1] [false; false; false], mkStore [0; 0]) /\
  indicesFromCell (mkLatticeMap 1 [1; 1; 1] [false; false; false]) 0 0 0
    (mkStore [0; 0]) = inr (TmpCellIndices, mkStore [0; 0]) /\
  length (deref (mkStore [0; 0]) TmpCellIndices) <> Z.to_nat 1.
Proof.
  split; [reflexivity|]. split; [reflexivity|]. split; [reflexivity|].
  simpl. discriminate.
Qed.

(** C3 (amended).  While the shared buffer holds exactly basisCount
    entries, [indicesFromCell(i,j,k)] of a cell in the grid returns
    basisCount values, the l-th being [((i*Rb+j)*Rc+k)*basisCount + l],
    in strictly increasing order; this mapping is a bijection between
    [[0, totalSites)] and the valid (i, j, k, l) tuples.  After the
    construction of any map with a basisCount [n'] at least this one's,
    the same call returns the buffer of length [n'], longer than
    basisCount when [n'] is larger.  Assumed: a well-formed map whose
    [totalSites] fits in an [int] (and [n'] an [int]). *)
Theorem indicesFromCell_mapping_law (m : LatticeMap) (st : store)
    (i j k : Z)
    (R_int : int_map m) :
  wf m -> length (tmp_cell_indices__ st) = Z.to_nat (n_basis_ m) ->
  0 <= i < rep m 0 -> 0 <= j < rep m 1 -> 0 <= k < rep m 2 ->
  exists st', indicesFromCell m i j k st = inr (TmpCellIndices, st') /\
    length (deref st' TmpCellIndices) = Z.to_nat (n_basis_ m) /\
    (forall l, 0 <= l < n_basis_ m ->
       nth_error (deref st' TmpCellIndices) (Z.to_nat l)
       = Some (((i * rep m 1 + j) * rep m 2 + k) * n_basis_ m + l)) /\
    StronglySorted Z.lt (deref st' TmpCellIndices) /\
    (forall i' j' k' l', 0 <= i' < rep m 0 -> 0 <= j' < rep m 1 ->
       0 <= k' < rep m 2 -> 0 <= l' < n_basis_ m ->
       0 <= ((i' * rep m 1 + j') * rep m 2 + k') * n_basis_ m + l'
         < totalSites m) /\
    (forall x, 0 <= x < totalSites m ->
       exists i' j' k' l', 0 <= i' < rep m 0 /\ 0 <= j' < rep m 1 /\
         0 <= k' < rep m 2 /\ 0 <= l' < n_basis_ m /\
         x = ((i' * rep m 1 + j') * rep m 2 + k') * n_basis_ m + l') /\
    (forall n' reps' per' st0, n_basis_ m <= n' <= INT_MAX ->
       exists st1 st2,
         construct n' reps' per' st0 = inr (mkLatticeMap n' reps' per', st1) /\
         indicesFromCell m i j k st1 = inr (TmpCellIndices, st2) /\
         length (deref st2 TmpCellIndices) = Z.to_nat n') /\
    (forall i1 j1 k1 l1 i2 j2 k2 l2,
       0 <= i1 < rep m 0 -> 0 <= j1 < rep m 1 -> 0 <= k1 < rep m 2 ->
       0 <= l1 < n_basis_ m ->
       0 <= i2 < rep m 0 -> 0 <= j2 < rep m 1 -> 0 <= k2 < rep m 2 ->
       0 <= l2 < n_basis_ m ->
       ((i1 * rep m 1 + j1) * rep m 2 + k1) * n_basis_ m + l1
       = ((i2 * rep m 1 + j2) * rep m 2 + k2) * n_basis_ m + l2 ->
       i1 = i2 /\ j1 = j2 /\ k1 = k2 /\ l1 = l2).
Proof.
  intros Hwf Hlen Hi Hj Hk. pose proof Hwf as (Hn & _ & _ & H0 & H1 & H2).
  rewrite indicesFromCell_run by (unfold buffer_fits; lia).
  eexists. split; [reflexivity|]. simpl.
  rewrite drop_ge by lia. rewrite app_nil_r.
  split; [apply length_cell_indices; lia|].
  split; [intros l Hl; apply nth_error_cell_indices; exact Hl|].
  split; [apply cell_indices_sorted|].
  split.
  { intros i' j' k' l' Hi' Hj' Hk' Hl'. unfold totalSites.
    assert (Ha : 0 <= i' * rep m 1 + j' < rep m 0 * rep m 1) by nia.
    assert (Hc : 0 <= (i' * rep m 1 + j') * rep m 2 + k'
                 < rep m 0 * rep m 1 * rep m 2) by nia.
    nia. }
  split.
  { intros x Hx.
    destruct (indexToCell_range m x Hwf Hx)
      as (i' & j' & k' & _ & Hi' & Hj' & Hk' & Hxe).
    exists i', j', k', (x mod n_basis_ m).
    repeat split; try lia; apply Z.mod_pos_bound; lia. }
  split.
  { intros n' reps' per' st0 Hn'. apply construct_then_indicesFromCell. lia. }
  intros i1 j1 k1 l1 i2 j2 k2 l2 Hi1 Hj1 Hk1 Hl1 Hi2 Hj2 Hk2 Hl2 Heq.
  destruct (flat_decode m i1 j1 k1 l1 Hwf Hi1 Hj1 Hk1 Hl1) as (_ & Hm1 & Hd1).
  destruct (flat_decode m i2 j2 k2 l2 Hwf Hi2 Hj2 Hk2 Hl2) as (_ & Hm2 & Hd2).
  rewrite Heq in Hm1, Hd1. rewrite Hd1 in Hd2. injection Hd2 as -> -> ->.
  repeat split. lia.
Qed.

Lemma indicesFromCell_mapping_law_witness :
  exists st', indicesFromCell (mkLatticeMap 2 [2; 3; 4] [true; false; true])
      1 2 3 (mkStore [0; 0]) = inr (TmpCellIndices, st') /\
    length (deref st' TmpCellIndices) = Z.to_nat 2 /\
    (forall l, 0 <= l < 2 ->
       nth_error (deref st' TmpCellIndices) (Z.to_nat l)
       = Some (((1 * 3 + 2) * 4 + 3) * 2 + l)) /\
    StronglySorted Z.lt (deref st' TmpCellIndices) /\
    (forall i' j' k' l', 0 <= i' < 2 -> 0 <= j' < 3 -> 0 <= k' < 4 ->
       0 <= l' < 2 ->
       0 <= ((i' * 3 + j') * 4 + k') * 2 + l' < 2 * 3 * 4 * 2) /\
    (forall x, 0 <= x < 2 * 3 * 4 * 2 ->
       exists i' j' k' l', 0 <= i' < 2 /\ 0 <= j' < 3 /\ 0 <= k' < 4 /\
         0 <= l' < 2 /\ x = ((i' * 3 + j') * 4 + k') * 2 + l') /\
    (forall n' reps' per' st0, 2 <= n' <= INT_MAX ->
       exists st1 st2,
         construct n' reps' per' st0 = inr (mkLatticeMap n' reps' per', st1) /\
         indicesFromCell (mkLatticeMap 2 [2; 3; 4] [true; false; true]) 1 2 3 st1
           = inr (TmpCellIndices, st2) /\
         length (deref st2 TmpCellIndices) = Z.to_nat n') /\
    (forall i1 j1 k1 l1 i2 j2 k2 l2,
       0 <= i1 < 2 -> 0 <= j1 < 3 -> 0 <= k1 < 4 -> 0 <= l1 < 2 ->
       0 <= i2 < 2 -> 0 <= j2 < 3 -> 0 <= k2 < 4 -> 0 <= l2 < 2 ->
       ((i1 * 3 + j1) * 4 + k1) * 2 + l1 = ((i2 * 3 + j2) * 4 + k2) * 2 + l2 ->
       i1 = i2 /\ j1 = j2 /\ k1 = k2 /\ l1 = l2).
Proof.
  apply (indicesFromCell_mapping_law
           (mkLatticeMap 2 [2; 3; 4] [true; false; true]) (mkStore [0; 0])
           1 2 3).
  - cbv [int_map int_shell wf totalSites rep INT_MIN INT_MAX]. simpl. repeat split; lia.
  - unfold wf, rep. simpl. repeat split; lia.
  - reflexivity.
  - unfold rep. simpl. lia.
  - unfold rep. simpl. lia.
  - unfold rep. simpl. lia.
Defined.

(** C4, counterexample.  On a fully periodic 1x1x1 grid with shell radius
    2 the candidates -2 and 2 of each axis are wrapped once to -1 and 1,
    fall outside [[0, 1)] and are dropped: 27 entries come out, where the
    full modulo wrap of the spec gives 125. *)
Lemma neighbourIndices_single_wrap_counterexample :
  indexToCell (mkLatticeMap 1 [1; 1; 1] [true; true; true]) 0
    = Some (0, 0, 0) /\
  match neighbourIndices (mkLatticeMap 1 [1; 1; 1] [true; true; true]) 0 2
          (mkStore [0]) with
  | inr (out, _) =>
      length out = 27%nat /\
      length (spec_neighbours (mkLatticeMap 1 [1; 1; 1] [true; true; true])
                0 0 0 2) = 125%nat
  | inl _ => False
  end.
Proof. vm_compute. split; [reflexivity|]. split; reflexivity. Qed.

(** C4 (amended).  A periodic axis wraps a candidate coordinate [x] once:
    the candidate contributes the cell with coordinate [x mod R] exactly
    when [-R <= x < 2R], and is dropped otherwise; so when [s <= R] on
    every periodic axis the output is the full modulo enumeration of the
    spec.  Assumed: a well-formed map, a valid index, [s >= 0], and the
    [int] bounds [int_map] and [int_shell]. *)
Theorem neighbourIndices_periodic_single_wrap (m : LatticeMap) (st : store)
    (index s : Z)
    (R_int : int_map m) (R_shell : int_shell m s) :
  wf m -> buffer_fits m st -> 0 <= index < totalSites m -> 0 <= s ->
  exists ci cj ck st', indexToCell m index = Some (ci, cj, ck) /\
    neighbourIndices m index s st = inr (neighbours_of m ci cj ck s, st') /\
    (forall R c, 0 < R ->
       axis_cells true R c s
       = map (fun x => x mod R)
           (List.filter (fun x => (-R <=? x) && (x <? 2 * R))
              (zrange (c - s) (c + s)))) /\
    ((per m 0 = true -> s <= rep m 0) -> (per m 1 = true -> s <= rep m 1) ->
     (per m 2 = true -> s <= rep m 2) ->
     neighbours_of m ci cj ck s = spec_neighbours m ci cj ck s).
Proof.
  intros Hwf Hfit Hidx Hs.
  destruct (indexToCell_range m index Hwf Hidx)
    as (ci & cj & ck & Hc & Hi & Hj & Hk & _).
  destruct (neighbourIndices_run m index s ci cj ck st Hwf Hc Hs Hfit)
    as (st' & E & _).
  exists ci, cj, ck, st'. split; [exact Hc|]. split; [exact E|].
  split; [intros R c HR; apply axis_cells_periodic; exact HR|].
  intros P0 P1 P2. unfold neighbours_of, spec_neighbours.
  rewrite !axis_cells_small_shell by assumption. reflexivity.
Qed.

Lemma neighbourIndices_periodic_single_wrap_witness :
  exists ci cj ck st',
    indexToCell (mkLatticeMap 1 [3; 1; 1] [true; false; false]) 0
      = Some (ci, cj, ck) /\
    neighbourIndices (mkLatticeMap 1 [3; 1; 1] [true; false; false]) 0 1
      (mkStore [0])
    = inr (neighbours_of (mkLatticeMap 1 [3; 1; 1] [true; false; false])
             ci cj ck 1, st') /\
    (forall R c, 0 < R ->
       axis_cells true R c 1
       = map (fun x => x mod R)
           (List.filter (fun x => (-R <=? x) && (x <? 2 * R))
              (zrange (c - 1) (c + 1)))) /\
    ((true = true -> 1 <= 3) -> (false = true -> 1 <= 1) ->
     (false = true -> 1 <= 1) ->
     neighbours_of (mkLatticeMap 1 [3; 1; 1] [true; false; false]) ci cj ck 1
     = spec_neighbours (mkLatticeMap 1 [3; 1; 1] [true; false; false])
         ci cj ck 1).
Proof.
  apply (neighbourIndices_periodic_single_wrap
           (mkLatticeMap 1 [3; 1; 1] [true; false; false]) (mkStore [0]) 0 1).
  - cbv [int_map int_shell wf totalSites rep INT_MIN INT_MAX]. simpl. repeat split; lia.
  - cbv [int_map int_shell wf totalSites rep INT_MIN INT_MAX]. simpl. repeat split; lia.
  - unfold wf, rep. simpl. repeat split; lia.
  - unfold buffer_fits. simpl. lia.
  - unfold totalSites, rep. simpl. lia.
  - lia.
Defined.

(** C5.  On a non-periodic axis a candidate outside [[0, R)] is skipped
    (the axis keeps exactly the in-range candidates, none is clamped), and
    every index in the output decodes to a cell whose coordinate on each
    non-periodic axis is an in-range candidate coordinate.  Assumed: a
    well-formed map, a valid index, [s >= 0], and the [int] bounds
    [int_map] and [int_shell]. *)
Theorem neighbourIndices_nonperiodic_pruning (m : LatticeMap) (st : store)
    (index s : Z)
    (R_int : int_map m) (R_shell : int_shell m s) :
  wf m -> buffer_fits m st -> 0 <= index < totalSites m -> 0 <= s ->
  exists ci cj ck out st', indexToCell m index = Some (ci, cj, ck) /\
    neighbourIndices m index s st = inr (out, st') /\
    out = neighbours_of m ci cj ck s /\
    (forall R c, axis_cells false R c s
                 = List.filter (in_bounds R) (zrange (c - s) (c + s))) /\
    (forall x, In x out -> exists a b c, indexToCell m x = Some (a, b, c) /\
       (per m 0 = false -> 0 <= a < rep m 0 /\ ci - s <= a <= ci + s) /\
       (per m 1 = false -> 0 <= b < rep m 1 /\ cj - s <= b <= cj + s) /\
       (per m 2 = false -> 0 <= c < rep m 2 /\ ck - s <= c <= ck + s)).
Proof.
  intros Hwf Hfit Hidx Hs.
  destruct (indexToCell_range m index Hwf Hidx)
    as (ci & cj & ck & Hc & _).
  destruct (neighbourIndices_run m index s ci cj ck st Hwf Hc Hs Hfit)
    as (st' & E & _).
  exists ci, cj, ck, (neighbours_of m ci cj ck s), st'.
  split; [exact Hc|]. split; [exact E|]. split; [reflexivity|].
  split; [intros R c; apply axis_cells_nonperiodic|].
  intros x Hx.
  destruct (in_neighbours_of m ci cj ck s x Hx)
    as (ii & jj & kk & l & Hii & Hjj & Hkk & Hl & ->).
  apply axis_cells_bounds in Hii as [Bi Pi].
  apply axis_cells_bounds in Hjj as [Bj Pj].
  apply axis_cells_bounds in Hkk as [Bk Pk].
  destruct (flat_decode m ii jj kk l Hwf Bi Bj Bk Hl) as (_ & _ & Hd).
  exists ii, jj, kk. split; [exact Hd|].
  split; [|split]; intros Hp; split; auto.
Qed.

Lemma neighbourIndices_nonperiodic_pruning_witness :
  exists ci cj ck out st',
    indexToCell (mkLatticeMap 1 [4; 4; 4] [false; false; false]) 0
      = Some (ci, cj, ck) /\
    neighbourIndices (mkLatticeMap 1 [4; 4; 4] [false; false; false]) 0 1
      (mkStore [0]) = inr (out, st') /\
    out = neighbours_of (mkLatticeMap 1 [4; 4; 4] [false; false; false])
            ci cj ck 1 /\
    (forall R c, axis_cells false R c 1
                 = List.filter (in_bounds R) (zrange (c - 1) (c + 1))) /\
    (forall x, In x out -> exists a b c,
       indexToCell (mkLatticeMap 1 [4; 4; 4] [false; false; false]) x
         = Some (a, b, c) /\
       (false = false -> 0 <= a < 4 /\ ci - 1 <= a <= ci + 1) /\
       (false = false -> 0 <= b < 4 /\ cj - 1 <= b <= cj + 1) /\
       (false = false -> 0 <= c < 4 /\ ck - 1 <= c <= ck + 1)).
Proof.
  apply (neighbourIndices_nonperiodic_pruning
           (mkLatticeMap 1 [4; 4; 4] [false; false; false]) (mkStore [0]) 0 1).
  - cbv [int_map int_shell wf totalSites rep INT_MIN INT_MAX]. simpl. repeat split; lia.
  - cbv [int_map int_shell wf totalSites rep INT_MIN INT_MAX]. simpl. repeat split; lia.
  - unfold wf, rep. simpl. repeat split; lia.
  - unfold buffer_fits. simpl. lia.
  - unfold totalSites, rep. simpl. lia.
  - lia.
Defined.

(** C6.  For valid input indices, [supersetNeighbourIndices] returns a
    strictly ascending list whose elements are those of the lists
    [neighbourIndices(index, 1)] of the inputs; any input list with the
    same elements (a permutation, or one with duplicates) gives the same
    result.  Assumed: a well-formed map and the [int] bounds [int_map]
    and [int_shell] for the shell radius 1. *)
Theorem supersetNeighbourIndices_sorted_union (m : LatticeMap) (st : store)
    (indices : list Z)
    (R_int : int_map m) (R_shell : int_shell m 1) :
  wf m -> buffer_fits m st ->
  (forall y, In y indices -> 0 <= y < totalSites m) ->
  exists out st', supersetNeighbourIndices m indices st = inr (out, st') /\
    StronglySorted Z.lt out /\
    (forall x, In x out <->
       exists y nb st'', In y indices /\
         neighbourIndices m y 1 st = inr (nb, st'') /\ In x nb) /\
    (forall indices', (forall y, In y indices' <-> In y indices) ->
       exists st'', supersetNeighbourIndices m indices' st = inr (out, st'')).
Proof.
  intros Hwf Hfit Hval.
  destruct (supersetNeighbourIndices_run m indices st Hwf Hfit Hval)
    as (st' & E & _).
  eexists _, st'. split; [exact E|].
  split; [apply sort_unique_sorted|]. split.
  - intros x. rewrite sort_unique_in, in_flat_map. split.
    + intros (y & Hy & Hx).
      destruct (neighbourIndices_valid m y 1 st Hwf (Hval y Hy))
        as (st'' & E' & _); [lia|exact Hfit|].
      exists y, (neighbours_at m y 1), st''. auto.
    + intros (y & nb & st'' & Hy & E' & Hx). exists y. split; [exact Hy|].
      destruct (neighbourIndices_valid m y 1 st Hwf (Hval y Hy))
        as (st3 & E3 & _); [lia|exact Hfit|].
      rewrite E' in E3. injection E3 as -> _. exact Hx.
  - intros indices' Hsame.
    assert (Hval' : forall y, In y indices' -> 0 <= y < totalSites m)
      by (intros y Hy; apply Hval, Hsame, Hy).
    destruct (supersetNeighbourIndices_run m indices' st Hwf Hfit Hval')
      as (st'' & E' & _).
    exists st''. rewrite E'. do 2 f_equal.
    apply sorted_lt_ext; [apply sort_unique_sorted..|].
    intros x. rewrite !sort_unique_in, !in_flat_map.
    split; intros (y & Hy & Hx); exists y; split; try exact Hx;
      apply Hsame; exact Hy.
Qed.

Lemma supersetNeighbourIndices_sorted_union_witness :
  exists out st',
    supersetNeighbourIndices (mkLatticeMap 1 [3; 1; 1] [true; false; false])
      [0; 0; 2] (mkStore [0]) = inr (out, st') /\
    StronglySorted Z.lt out /\
    (forall x, In x out <->
       exists y nb st'', In y [0; 0; 2] /\
         neighbourIndices (mkLatticeMap 1 [3; 1; 1] [true; false; false]) y 1
           (mkStore [0]) = inr (nb, st'') /\ In x nb) /\
    (forall indices', (forall y, In y indices' <-> In y [0; 0; 2]) ->
       exists st'', supersetNeighbourIndices
                      (mkLatticeMap 1 [3; 1; 1] [true; false; false])
                      indices' (mkStore [0]) = inr (out, st'')).
Proof.
  apply (supersetNeighbourIndices_sorted_union
           (mkLatticeMap 1 [3; 1; 1] [true; false; false]) (mkStore [0])
           [0; 0; 2]).
  - cbv [int_map int_shell wf totalSites rep INT_MIN INT_MAX]. simpl. repeat split; lia.
  - cbv [int_map int_shell wf totalSites rep INT_MIN INT_MAX]. simpl. repeat split; lia.
  - unfold wf, rep. simpl. repeat split; lia.
  - unfold buffer_fits. simpl. lia.
  - intros y Hy. unfold totalSites, rep. simpl in *. lia.
Defined.

(** C7, counterexample.  [indicesFromCell] returns a reference to the one
    static buffer: the result of the call for cell (0,0,0) reads [[0]],
    and after the call for cell (1,0,0) the same result reads [[1]];
    constructing another map resizes that buffer. *)
Lemma indicesFromCell_shared_buffer_counterexample :
  indicesFromCell (mkLatticeMap 1 [2; 1; 1] [false; false; false]) 0 0 0
    (mkStore [0]) = inr (TmpCellIndices, mkStore [0]) /\
  deref (mkStore [0]) TmpCellIndices = [0] /\
  indicesFromCell (mkLatticeMap 1 [2; 1; 1] [false; false; false]) 1 0 0
    (mkStore [0]) = inr (TmpCellIndices, mkStore [1]) /\
  deref (mkStore [1]) TmpCellIndices = [1] /\
  construct 2 [1; 1; 1] [false; false; false] (mkStore [1]) =
    inr (mkLatticeMap 2 [1; 1; 1] [false; false; false], mkStore [1; 0]).
Proof. repeat split. Qed.

(** C7 (amended).  Every call of [indicesFromCell] writes the cell's
    indices into the one static buffer shared by all calls and all maps
    and returns a reference to it, so a later call with other arguments
    makes an earlier result read as the later cell's indices; the
    constructor resizes that shared buffer to basisCount.  Stated for
    cells of the grid of a well-formed map whose [totalSites] fits in an
    [int], and for a constructor argument basisCount in [[0, INT_MAX]]. *)
Theorem indicesFromCell_returns_shared_buffer (m : LatticeMap) (st : store)
    (i j k i' j' k' : Z)
    (R_wf : wf m) (R_int : int_map m)
    (R_i : 0 <= i < rep m 0) (R_j : 0 <= j < rep m 1) (R_k : 0 <= k < rep m 2)
    (R_i' : 0 <= i' < rep m 0) (R_j' : 0 <= j' < rep m 1) (R_k' : 0 <= k' < rep m 2) :
  0 <= n_basis_ m -> buffer_fits m st ->
  exists st1 st2,
    indicesFromCell m i j k st = inr (TmpCellIndices, st1) /\
    take (Z.to_nat (n_basis_ m)) (deref st1 TmpCellIndices)
      = cell_indices m i j k /\
    indicesFromCell m i' j' k' st1 = inr (TmpCellIndices, st2) /\
    take (Z.to_nat (n_basis_ m)) (deref st2 TmpCellIndices)
      = cell_indices m i' j' k' /\
    (forall n_basis repetitions periodic st0, 0 <= n_basis <= INT_MAX ->
       construct n_basis repetitions periodic st0
       = inr (mkLatticeMap n_basis repetitions periodic,
              mkStore (resize (Z.to_nat n_basis) (tmp_cell_indices__ st0)))).
Proof.
  intros Hn Hfit.
  destruct (indicesFromCell_copy m st i j k Hn Hfit) as (st1 & E1 & T1 & L1).
  assert (Hfit1 : buffer_fits m st1) by (unfold buffer_fits in *; lia).
  destruct (indicesFromCell_copy m st1 i' j' k' Hn Hfit1)
    as (st2 & E2 & T2 & _).
  exists st1, st2. repeat split; try assumption.
  intros n_basis repetitions periodic st0 Hn0. unfold construct.
  replace (n_basis <? 0) with false by (symmetry; apply Z.ltb_ge; lia).
  reflexivity.
Qed.

Lemma indicesFromCell_returns_shared_buffer_witness :
  exists st1 st2,
    indicesFromCell (mkLatticeMap 1 [2; 1; 1] [false; false; false]) 0 0 0
      (mkStore [0]) = inr (TmpCellIndices, st1) /\
    take (Z.to_nat 1) (deref st1 TmpCellIndices)
      = cell_indices (mkLatticeMap 1 [2; 1; 1] [false; false; false]) 0 0 0 /\
    indicesFromCell (mkLatticeMap 1 [2; 1; 1] [false; false; false]) 1 0 0
      st1 = inr (TmpCellIndices, st2) /\
    take (Z.to_nat 1) (deref st2 TmpCellIndices)
      = cell_indices (mkLatticeMap 1 [2; 1; 1] [false; false; false]) 1 0 0 /\
    (forall n_basis repetitions periodic st0, 0 <= n_basis <= INT_MAX ->
       construct n_basis repetitions periodic st0
       = inr (mkLatticeMap n_basis repetitions periodic,
              mkStore (resize (Z.to_nat n_basis) (tmp_cell_indices__ st0)))).
Proof.
  apply (indicesFromCell_returns_shared_buffer
           (mkLatticeMap 1 [2; 1; 1] [false; false; false]) (mkStore [0])
           0 0 0 1 0 0).
  - cbv [int_map int_shell wf totalSites rep INT_MIN INT_MAX]. simpl. repeat split; lia.
  - cbv [int_map int_shell wf totalSites rep INT_MIN INT_MAX]. simpl. repeat split; lia.
  - cbv [int_map int_shell wf totalSites rep INT_MIN INT_MAX]. simpl. repeat split; lia.
  - cbv [int_map int_shell wf totalSites rep INT_MIN INT_MAX]. simpl. repeat split; lia.
  - cbv [int_map int_shell wf totalSites rep INT_MIN INT_MAX]. simpl. repeat split; lia.
  - cbv [int_map int_shell wf totalSites rep INT_MIN INT_MAX]. simpl. repeat split; lia.
  - cbv [int_map int_shell wf totalSites rep INT_MIN INT_MAX]. simpl. repeat split; lia.
  - cbv [int_map int_shell wf totalSites rep INT_MIN INT_MAX]. simpl. repeat split; lia.
  - simpl. lia.
  - unfold buffer_fits. simpl. lia.
Defined.

(** C8, counterexample.  The constructor validates nothing: basisCount 0
    is accepted, and so are a repetitions array [[0; -1]] of length 2 and
    an empty periodic array. *)
Lemma construct_no_validation_counterexample :
  construct 0 [1; 1; 1] [false; false; false] (mkStore []) =
    inr (mkLatticeMap 0 [1; 1; 1] [false; false; false], mkStore []) /\
  construct 1 [0; -1] [] (mkStore []) =
    inr (mkLatticeMap 1 [0; -1] [], mkStore [0]).
Proof. split; reflexivity. Qed.

(** C8 (amended).  The constructor stores basisCount, repetitions and
    periodic as given, whatever their values and lengths, and resizes
    the shared buffer to basisCount; the only failure is a negative
    basisCount, for which that resize throws [std::length_error]. *)
Theorem construct_accepts_any_geometry (n_basis : Z) (repetitions : list Z)
    (periodic : list bool) (st : store) :
  (0 <= n_basis ->
   construct n_basis repetitions periodic st
   = inr (mkLatticeMap n_basis repetitions periodic,
          mkStore (resize (Z.to_nat n_basis) (tmp_cell_indices__ st)))) /\
  (n_basis < 0 -> construct n_basis repetitions periodic st = inl LengthError).
Proof.
  unfold construct. split; intros H.
  - replace (n_basis <? 0) with false by (symmetry; apply Z.ltb_ge; lia).
    reflexivity.
  - replace (n_basis <? 0) with true by (symmetry; apply Z.ltb_lt; lia).
    reflexivity.
Qed.

Lemma construct_accepts_any_geometry_witness :
  construct 0 [1; 1; 1] [false; false; false] (mkStore [])
  = inr (mkLatticeMap 0 [1; 1; 1] [false; false; false],
         mkStore (resize (Z.to_nat 0) [])).
Proof.
  apply (proj1 (construct_accepts_any_geometry 0 [1; 1; 1]
                  [false; false; false] (mkStore []))).
  lia.
Defined.

(** C9, counterexample.  [neighbourIndices(0, -1)] fails with the
    [std::length_error] of allocating a vector of negative size: there
    is no shell-radius check and no InvalidArgument failure. *)
Lemma neighbourIndices_negative_shell_counterexample :
  neighbourIndices (mkLatticeMap 1 [2; 2; 2] [false; false; false]) 0 (-1)
    (mkStore [0]) = inl LengthError.
Proof. reflexivity. Qed.

(** C9 (amended).  For a valid index and any negative shell radius, the
    requested result size [(2s+1)^3 * basisCount] is negative and
    [neighbourIndices] fails with [std::length_error].  Assumed: a
    well-formed map whose [totalSites] fits in an [int], and [2s] and the
    size in [int] range (no wrap-around). *)
Theorem neighbourIndices_negative_shell (m : LatticeMap) (st : store)
    (index s : Z)
    (R_int : int_map m) (R_2s : INT_MIN <= 2 * s) (R_size : INT_MIN <= (2 * s + 1) ^ 3 * n_basis_ m) :
  wf m -> 0 <= index < totalSites m -> s < 0 ->
  neighbourIndices m index s st = inl LengthError.
Proof.
  intros Hwf Hidx Hs. pose proof Hwf as (Hn & _).
  destruct (indexToCell_range m index Hwf Hidx) as (ci & cj & ck & Hc & _).
  unfold neighbourIndices. rewrite Hc.
  replace ((2 * s + 1) ^ 3 * n_basis_ m <? 0) with true; [reflexivity|].
  symmetry. apply Z.ltb_lt.
  replace ((2 * s + 1) ^ 3) with ((2 * s + 1) * (2 * s + 1) * (2 * s + 1))
    by ring.
  assert (Hsq : 1 <= (2 * s + 1) * (2 * s + 1)) by nia.
  nia.
Qed.

Lemma neighbourIndices_negative_shell_witness :
  neighbourIndices (mkLatticeMap 1 [2; 2; 2] [false; false; false]) 7 (-3)
    (mkStore [0]) = inl LengthError.
Proof.
  apply (neighbourIndices_negative_shell
           (mkLatticeMap 1 [2; 2; 2] [false; false; false]) (mkStore [0]) 7 (-3)).
  - cbv [int_map int_shell wf totalSites rep INT_MIN INT_MAX]. simpl. repeat split; lia.
  - cbv [int_map int_shell wf totalSites rep INT_MIN INT_MAX]. simpl. repeat split; lia.
  - cbv [int_map int_shell wf totalSites rep INT_MIN INT_MAX]. simpl. repeat split; lia.
  - unfold wf, rep. simpl. repeat split; lia.
  - unfold totalSites, rep. simpl. lia.
  - lia.
Defined.

(** C10, counterexample.  After constructing a map with basisCount 1 and
    then one with basisCount 2, the first map's [neighbourIndices(0, 0)]
    is [[0]], while [indicesFromCell(indexToCell(0))] returns the shared
    buffer [[0; 0]]. *)
Lemma neighbourIndices_zero_shell_counterexample :
  construct 2 [1; 1; 1] [false; false; false] (mkStore [0]) =
    inr (mkLatticeMap 2 [1; 1; 1] [false; false; false], mkStore [0; 0]) /\
  neighbourIndices (mkLatticeMap 1 [1; 1; 1] [false; false; false]) 0 0
    (mkStore [0; 0]) = inr ([0], mkStore [0; 0]) /\
  indexToCell (mkLatticeMap 1 [1; 1; 1] [false; false; false]) 0
    = Some (0, 0, 0) /\
  indicesFromCell (mkLatticeMap 1 [1; 1; 1] [false; false; false]) 0 0 0
    (mkStore [0; 0]) = inr (TmpCellIndices, mkStore [0; 0]) /\
  deref (mkStore [0; 0]) TmpCellIndices <> [0].
Proof. repeat split. discriminate. Qed.

(** C10 (amended).  For a valid index, [neighbourIndices(index, 0)]
    returns exactly the basisCount indices of the site's own cell in
    ascending order, which is what [indicesFromCell(indexToCell(index))]
    returns while the shared buffer holds exactly basisCount entries; for
    every [s >= 0] the length of the result is a multiple of basisCount
    and at most [(2s+1)^3 * basisCount].  After the construction of any
    map with a basisCount [n'] at least this one's, that
    [indicesFromCell] call returns the buffer of length [n'].  Assumed: a
    well-formed map, a valid index, and the [int] bounds [int_map] and
    [int_shell] (for each [s]). *)
Theorem neighbourIndices_zero_shell_and_size (m : LatticeMap) (st : store)
    (index : Z)
    (R_int : int_map m) (R_shell : int_shell m 0) :
  wf m -> buffer_fits m st -> 0 <= index < totalSites m ->
  (exists i j k st', indexToCell m index = Some (i, j, k) /\
     neighbourIndices m index 0 st = inr (cell_indices m i j k, st') /\
     length (cell_indices m i j k) = Z.to_nat (n_basis_ m) /\
     StronglySorted Z.lt (cell_indices m i j k) /\
     (length (tmp_cell_indices__ st) = Z.to_nat (n_basis_ m) ->
      exists st'', indicesFromCell m i j k st = inr (TmpCellIndices, st'') /\
        deref st'' TmpCellIndices = cell_indices m i j k) /\
     (forall n' reps' per' st0, n_basis_ m <= n' <= INT_MAX ->
       exists st1 st2,
         construct n' reps' per' st0 = inr (mkLatticeMap n' reps' per', st1) /\
         indicesFromCell m i j k st1 = inr (TmpCellIndices, st2) /\
         length (deref st2 TmpCellIndices) = Z.to_nat n')) /\
  (forall s, 0 <= s -> int_shell m s -> exists out st',
     neighbourIndices m index s st = inr (out, st') /\
     (n_basis_ m | Z.of_nat (length out)) /\
     Z.of_nat (length out) <= (2 * s + 1) ^ 3 * n_basis_ m).
Proof.
  intros Hwf Hfit Hidx. pose proof Hwf as (Hn & _).
  destruct (indexToCell_range m index Hwf Hidx)
    as (ci & cj & ck & Hc & Hi & Hj & Hk & _).
  split.
  - destruct (neighbourIndices_run m index 0 ci cj ck st Hwf Hc ltac:(lia) Hfit)
      as (st' & E & _).
    exists ci, cj, ck, st'. split; [exact Hc|].
    unfold neighbours_of in E.
    rewrite !axis_cells_zero in E by assumption. simpl in E.
    rewrite !app_nil_r in E. split; [exact E|].
    split; [apply length_cell_indices; lia|].
    split; [apply cell_indices_sorted|].
    split.
    + intros Hlen. rewrite indicesFromCell_run by (unfold buffer_fits; lia).
      eexists. split; [reflexivity|]. simpl.
      rewrite drop_ge by lia. apply app_nil_r.
    + intros n' reps' per' st0 Hn'. apply construct_then_indicesFromCell. lia.
  - intros s Hs _.
    destruct (neighbourIndices_run m index s ci cj ck st Hwf Hc Hs Hfit)
      as (st' & E & _).
    exists (neighbours_of m ci cj ck s), st'. split; [exact E|].
    rewrite length_neighbours_of by lia.
    pose proof (length_axis_cells (per m 0) (rep m 0) ci s).
    pose proof (length_axis_cells (per m 1) (rep m 1) cj s).
    pose proof (length_axis_cells (per m 2) (rep m 2) ck s).
    set (a0 := length (axis_cells (per m 0) (rep m 0) ci s)) in *.
    set (a1 := length (axis_cells (per m 1) (rep m 1) cj s)) in *.
    set (a2 := length (axis_cells (per m 2) (rep m 2) ck s)) in *.
    rewrite !Nat2Z.inj_mul, Z2Nat.id by lia. split.
    + exists (Z.of_nat a0 * (Z.of_nat a1 * Z.of_nat a2)). ring.
    + replace ((2 * s + 1) ^ 3) with ((2 * s + 1) * (2 * s + 1) * (2 * s + 1))
        by ring.
      assert (B0 : 0 <= Z.of_nat a0 <= 2 * s + 1) by lia.
      assert (B1 : 0 <= Z.of_nat a1 <= 2 * s + 1) by lia.
      assert (B2 : 0 <= Z.of_nat a2 <= 2 * s + 1) by lia.
      assert (Z.of_nat a2 * n_basis_ m <= (2 * s + 1) * n_basis_ m) by nia.
      assert (Z.of_nat a1 * (Z.of_nat a2 * n_basis_ m)
              <= (2 * s + 1) * ((2 * s + 1) * n_basis_ m)) by nia.
      nia.
Qed.

Lemma neighbourIndices_zero_shell_and_size_witness :
  (exists i j k st',
     indexToCell (mkLatticeMap 2 [2; 3; 4] [true; false; true]) 17
       = Some (i, j, k) /\
     neighbourIndices (mkLatticeMap 2 [2; 3; 4] [true; false; true]) 17 0
       (mkStore [0; 0])
     = inr (cell_indices (mkLatticeMap 2 [2; 3; 4] [true; false; true])
              i j k, st') /\
     length (cell_indices (mkLatticeMap 2 [2; 3; 4] [true; false; true])
               i j k) = Z.to_nat 2 /\
     StronglySorted Z.lt
       (cell_indices (mkLatticeMap 2 [2; 3; 4] [true; false; true]) i j k) /\
     (length [0; 0] = Z.to_nat 2 ->
      exists st'', indicesFromCell (mkLatticeMap 2 [2; 3; 4] [true; false; true])
                     i j k (mkStore [0; 0]) = inr (TmpCellIndices, st'') /\
        deref st'' TmpCellIndices
        = cell_indices (mkLatticeMap 2 [2; 3; 4] [true; false; true]) i j k) /\
     (forall n' reps' per' st0, 2 <= n' <= INT_MAX ->
       exists st1 st2,
         construct n' reps' per' st0 = inr (mkLatticeMap n' reps' per', st1) /\
         indicesFromCell (mkLatticeMap 2 [2; 3; 4] [true; false; true]) i j k st1
           = inr (TmpCellIndices, st2) /\
         length (deref st2 TmpCellIndices) = Z.to_nat n')) /\
  (forall s, 0 <= s ->
     int_shell (mkLatticeMap 2 [2; 3; 4] [true; false; true]) s ->
     exists out st',
     neighbourIndices (mkLatticeMap 2 [2; 3; 4] [true; false; true]) 17 s
       (mkStore [0; 0]) = inr (out, st') /\
     (2 | Z.of_nat (length out)) /\
     Z.of_nat (length out) <= (2 * s + 1) ^ 3 * 2).
Proof.
  apply (neighbourIndices_zero_shell_and_size
           (mkLatticeMap 2 [2; 3; 4] [true; false; true]) (mkStore [0; 0]) 17).
  - cbv [int_map int_shell wf totalSites rep INT_MIN INT_MAX]. simpl. repeat split; lia.
  - cbv [int_map int_shell wf totalSites rep INT_MIN INT_MAX]. simpl. repeat split; lia.
  - unfold wf, rep. simpl. repeat split; lia.
  - unfold buffer_fits. simpl. lia.
  - unfold totalSites, rep. simpl. lia.
Defined.

(** * Further properties of the code *)

(** ** Helpers for the decoder *)

Lemma quot_small_nonpos (a b : Z) : 0 < b -> a < b -> Z.quot a b <= 0.
Proof.
  intros Hb Ha. destruct (Z.ltb_spec a 0).
  - replace a with (- (- a)) by lia. rewrite Z.quot_opp_l by lia.
    pose proof (Z.quot_pos (- a) b ltac:(lia) Hb). lia.
  - rewrite Z.quot_small by lia. lia.
Qed.

(** Every index below [n_basis_], negative ones included, decodes to the
    cell (0, 0, 0): each loop exits on its first test. *)
Lemma indexToCell_first_cell (m : LatticeMap) (index : Z) :
  wf m -> index < n_basis_ m -> indexToCell m index = Some (0, 0, 0).
Proof.
  intros (Hn & _ & _ & H0 & H1 & H2) Hidx.
  pose proof (quot_small_nonpos index (n_basis_ m) Hn Hidx) as Hq.
  unfold indexToCell. cbn [count_while incr_while].
  rewrite (proj2 (Z.ltb_ge (rep m 1 * rep m 2) _)) by nia.
  rewrite (proj2 (Z.ltb_ge (rep m 2) _)) by nia.
  rewrite (proj2 (Z.ltb_ge 1 _)) by nia.
  reflexivity.
Qed.


(** A counting loop whose step is 0 never reaches its bound. *)
Lemma count_while_stuck fuel : forall c cmp bound,
  cmp < bound -> count_while fuel c cmp 0 bound = None.
Proof.
  induction fuel as [|fuel IH]; intros c cmp bound H; simpl; [reflexivity|].
  rewrite (proj2 (Z.ltb_lt _ _) H), Z.add_0_r. apply IH. exact H.
Qed.

Lemma filter_none {A} (f : A -> bool) (l : list A) :
  (forall x, In x l -> f x = false) -> List.filter f l = [].
Proof.
  intros H. induction l as [|x l IH]; simpl; [reflexivity|].
  rewrite H by (left; reflexivity). apply IH. intros y Hy. apply H.
  right. exact Hy.
Qed.

(** ** Helpers for the enumeration *)


Lemma axis_cells_self (p : bool) (R c s : Z) :
  0 <= c < R -> 0 <= s -> In c (axis_cells p R c s).
Proof.
  intros Hc Hs. unfold axis_cells. apply filter_In. split.
  - apply in_map_iff. exists c. split; [|apply in_zrange; lia].
    unfold wrap. destruct p; [|reflexivity].
    destruct (Z.ltb_spec c 0); [lia|].
    destruct (Z.leb_spec R c); [lia|reflexivity].
  - unfold in_bounds. apply andb_true_iff.
    split; [apply Z.leb_le|apply Z.ltb_lt]; lia.
Qed.

Lemma neighbours_of_range (m : LatticeMap) (ci cj ck s x : Z) : wf m ->
  In x (neighbours_of m ci cj ck s) -> 0 <= x < totalSites m.
Proof.
  intros (Hn & _ & _ & H0 & H1 & H2) Hx.
  apply in_neighbours_of in Hx
    as (ii & jj & kk & l & Hii & Hjj & Hkk & Hl & ->).
  apply axis_cells_bounds in Hii as [Hii _].
  apply axis_cells_bounds in Hjj as [Hjj _].
  apply axis_cells_bounds in Hkk as [Hkk _].
  unfold totalSites.
  assert (ii * rep m 1 + jj < rep m 0 * rep m 1) by nia.
  assert ((ii * rep m 1 + jj) * rep m 2 + kk < rep m 0 * rep m 1 * rep m 2)
    by nia.
  split; nia.
Qed.

(** Membership in the enumeration, read on the decoded cell. *)
Lemma in_neighbours_of_cell (m : LatticeMap) (ci cj ck s x i j k : Z) :
  wf m -> 0 <= x < totalSites m -> indexToCell m x = Some (i, j, k) ->
  In x (neighbours_of m ci cj ck s) <->
  In i (axis_cells (per m 0) (rep m 0) ci s) /\
  In j (axis_cells (per m 1) (rep m 1) cj s) /\
  In k (axis_cells (per m 2) (rep m 2) ck s).
Proof.
  intros Hwf Hx Hc. split.
  - intros Hin. pose proof Hin as Hin'.
    apply in_neighbours_of in Hin
      as (ii & jj & kk & l & Hii & Hjj & Hkk & Hl & Hxe).
    pose proof (proj1 (axis_cells_bounds _ _ _ _ _ Hii)).
    pose proof (proj1 (axis_cells_bounds _ _ _ _ _ Hjj)).
    pose proof (proj1 (axis_cells_bounds _ _ _ _ _ Hkk)).
    assert (Hd : indexToCell m x = Some (ii, jj, kk)).
    { rewrite Hxe. apply (flat_decode m ii jj kk l Hwf); assumption. }
    rewrite Hc in Hd. injection Hd as -> -> ->. auto.
  - intros (Hi & Hj & Hk).
    destruct (indexToCell_range m x Hwf Hx)
      as (i' & j' & k' & Hc' & _ & _ & _ & Hxe).
    rewrite Hc in Hc'. injection Hc' as <- <- <-.
    unfold neighbours_of. apply in_flat_map. exists i. split; [exact Hi|].
    apply in_flat_map. exists j. split; [exact Hj|].
    apply in_flat_map. exists k. split; [exact Hk|].
    apply in_cell_indices. exists (x mod n_basis_ m).
    split; [apply Z.mod_pos_bound; apply Hwf|exact Hxe].
Qed.

Lemma neighbours_at_self (m : LatticeMap) (index s : Z) :
  wf m -> 0 <= index < totalSites m -> 0 <= s ->
  In index (neighbours_at m index s).
Proof.
  intros Hwf Hidx Hs.
  destruct (indexToCell_range m index Hwf Hidx)
    as (ci & cj & ck & Hc & Hi & Hj & Hk & _).
  unfold neighbours_at. rewrite Hc.
  apply (in_neighbours_of_cell m ci cj ck s index ci cj ck Hwf Hidx Hc).
  split; [|split]; apply axis_cells_self; assumption.
Qed.

Lemma neighbours_at_range (m : LatticeMap) (index s x : Z) : wf m ->
  In x (neighbours_at m index s) -> 0 <= x < totalSites m.
Proof.
  intros Hwf Hx. unfold neighbours_at in Hx.
  destruct (indexToCell m index) as [[[ci cj] ck]|]; [|destruct Hx].
  apply (neighbours_of_range m ci cj ck s x Hwf Hx).
Qed.

(** The neighbour relation is symmetric on one axis: the single wrap
    keeps [a] around [c] exactly when it keeps [c] around [a]. *)
Lemma axis_cells_symmetric (p : bool) (R a c s : Z) :
  0 <= a < R -> 0 <= c < R ->
  In a (axis_cells p R c s) -> In c (axis_cells p R a s).
Proof.
  intros Ha Hc Hin. destruct p.
  - rewrite axis_cells_periodic in Hin by lia.
    rewrite axis_cells_periodic by lia.
    apply in_map_iff in Hin as (x & Hxa & Hx).
    apply filter_In in Hx as [Hx Hb]. apply in_zrange in Hx.
    apply andb_true_iff in Hb as [Hb1 Hb2].
    apply Z.leb_le in Hb1. apply Z.ltb_lt in Hb2.
    pose proof (Z.div_mod x R ltac:(lia)) as Hdm. rewrite Hxa in Hdm.
    set (q := x / R) in *.
    assert (Hq : -1 <= q <= 1) by nia.
    apply in_map_iff. exists (c - R * q). split.
    + symmetry. apply (Z.mod_unique_pos _ _ (- q)); nia.
    + apply filter_In. split; [apply in_zrange; lia|].
      apply andb_true_iff. split; [apply Z.leb_le|apply Z.ltb_lt]; nia.
  - rewrite axis_cells_nonperiodic in *.
    apply filter_In in Hin as [Hin _]. apply in_zrange in Hin.
    apply filter_In. split; [apply in_zrange; lia|].
    unfold in_bounds. apply andb_true_iff.
    split; [apply Z.leb_le|apply Z.ltb_lt]; lia.
Qed.

(** ** Order and repetition in the enumeration *)

Lemma zrange_sorted (lo hi : Z) : StronglySorted Z.lt (zrange lo hi).
Proof. unfold zrange. apply sorted_seq_shift. Qed.



Lemma StronglySorted_filter_lt (f : Z -> bool) (l : list Z) :
  StronglySorted Z.lt l -> StronglySorted Z.lt (List.filter f l).
Proof.
  induction 1 as [|x l _ IH Hx]; simpl; [constructor|].
  destruct (f x); [|exact IH]. constructor; [exact IH|].
  rewrite List.Forall_forall in *. intros y Hy.
  apply filter_In in Hy as [Hy _]. apply Hx. exact Hy.
Qed.

Lemma sorted_flat_map {A} (Rk : A -> A -> Prop) (f : A -> list Z)
    (l : list A) :
  StronglySorted Rk l ->
  (forall x, In x l -> StronglySorted Z.lt (f x)) ->
  (forall x y a b, In x l -> In y l -> Rk x y -> In a (f x) -> In b (f y) ->
     a < b) ->
  StronglySorted Z.lt (flat_map f l).
Proof.
  induction 1 as [|x l _ IH Hx]; intros Hf Hab; simpl; [constructor|].
  apply StronglySorted_app_2.
  - intros a b Ha Hb. apply list_elem_of_In in Ha, Hb.
    apply in_flat_map in Hb as (y & Hy & Hb).
    rewrite List.Forall_forall in Hx.
    apply (Hab x y a b (or_introl eq_refl) (or_intror Hy) (Hx y Hy) Ha Hb).
  - apply Hf. left. reflexivity.
  - apply IH.
    + intros y Hy. apply Hf. right. exact Hy.
    + intros y z a b Hy Hz. apply Hab; right; assumption.
Qed.


(** The flat index grows lexicographically with (i, j, k). *)
Lemma flat_lt (m : LatticeMap) (ii jj kk l ii' jj' kk' l' : Z) : wf m ->
  0 <= jj < rep m 1 -> 0 <= kk < rep m 2 -> 0 <= l < n_basis_ m ->
  0 <= jj' -> 0 <= kk' -> 0 <= l' ->
  (ii < ii' \/ (ii = ii' /\ jj < jj') \/ (ii = ii' /\ jj = jj' /\ kk < kk')) ->
  ((ii * rep m 1 + jj) * rep m 2 + kk) * n_basis_ m + l
  < ((ii' * rep m 1 + jj') * rep m 2 + kk') * n_basis_ m + l'.
Proof.
  intros (Hn & _ & _ & _ & H1 & H2) Hjj Hkk Hl Hjj' Hkk' Hl' Hlex.
  enough ((ii * rep m 1 + jj) * rep m 2 + kk
          < (ii' * rep m 1 + jj') * rep m 2 + kk') by nia.
  destruct Hlex as [Hi | [[<- Hj] | (<- & <- & Hk)]]; [|nia|lia].
  assert (ii * rep m 1 + jj < ii' * rep m 1) by nia. nia.
Qed.

Lemma axis_cells_nonperiodic_sorted (R c s : Z) :
  StronglySorted Z.lt (axis_cells false R c s).
Proof.
  rewrite axis_cells_nonperiodic. apply StronglySorted_filter_lt.
  apply zrange_sorted.
Qed.

Lemma in_block (m : LatticeMap) (ii : Z) (B C : list Z) (a : Z) :
  In a (flat_map (fun jj => flat_map (fun kk => cell_indices m ii jj kk) C) B) ->
  exists jj kk l, In jj B /\ In kk C /\ 0 <= l < n_basis_ m /\
    a = ((ii * rep m 1 + jj) * rep m 2 + kk) * n_basis_ m + l.
Proof.
  intros Ha. apply in_flat_map in Ha as (jj & Hjj & Ha).
  apply in_flat_map in Ha as (kk & Hkk & Ha).
  apply in_cell_indices in Ha as (l & Hl & ->). exists jj, kk, l. auto.
Qed.

Lemma neighbours_of_sorted (m : LatticeMap) (ci cj ck s : Z) : wf m ->
  per m 0 = false -> per m 1 = false -> per m 2 = false ->
  StronglySorted Z.lt (neighbours_of m ci cj ck s).
Proof.
  intros Hwf P0 P1 P2. pose proof Hwf as (Hn & _).
  unfold neighbours_of. rewrite P0, P1, P2.
  apply (sorted_flat_map Z.lt); [apply axis_cells_nonperiodic_sorted| |].
  - intros ii Hii. apply (sorted_flat_map Z.lt);
      [apply axis_cells_nonperiodic_sorted| |].
    + intros jj Hjj. apply (sorted_flat_map Z.lt);
        [apply axis_cells_nonperiodic_sorted| |].
      * intros kk _. apply cell_indices_sorted.
      * intros kk kk' a b Hkk Hkk' Hlt Ha Hb.
        apply in_cell_indices in Ha as (l & Hl & ->).
        apply in_cell_indices in Hb as (l' & Hl' & ->).
        apply axis_cells_bounds in Hjj as [Hjj _].
        apply axis_cells_bounds in Hkk as [Hkk _].
        apply axis_cells_bounds in Hkk' as [Hkk' _].
        apply flat_lt; auto; lia.
    + intros jj jj' a b Hjj Hjj' Hlt Ha Hb.
      apply in_flat_map in Ha as (kk & Hkk & Ha).
      apply in_flat_map in Hb as (kk' & Hkk' & Hb).
      apply in_cell_indices in Ha as (l & Hl & ->).
      apply in_cell_indices in Hb as (l' & Hl' & ->).
      apply axis_cells_bounds in Hjj as [Hjj _].
      apply axis_cells_bounds in Hjj' as [Hjj' _].
      apply axis_cells_bounds in Hkk as [Hkk _].
      apply axis_cells_bounds in Hkk' as [Hkk' _].
      apply flat_lt; auto; lia.
  - intros ii ii' a b Hii Hii' Hlt Ha Hb.
    apply in_block in Ha as (jj & kk & l & Hjj & Hkk & Hl & ->).
    apply in_block in Hb as (jj' & kk' & l' & Hjj' & Hkk' & Hl' & ->).
    apply axis_cells_bounds in Hjj as [Hjj _].
    apply axis_cells_bounds in Hjj' as [Hjj' _].
    apply axis_cells_bounds in Hkk as [Hkk _].
    apply axis_cells_bounds in Hkk' as [Hkk' _].
    apply flat_lt; auto; lia.
Qed.



Lemma filter_in_bounds_zrange (R lo hi : Z) :
  List.filter (in_bounds R) (zrange lo hi) = zrange (Z.max 0 lo) (Z.min (R - 1) hi).
Proof.
  apply sorted_lt_ext;
    [apply StronglySorted_filter_lt, zrange_sorted|apply zrange_sorted|].
  intros x. rewrite filter_In, !in_zrange. unfold in_bounds.
  rewrite andb_true_iff, Z.leb_le, Z.ltb_lt. lia.
Qed.

Lemma neighbours_at_sorted (m : LatticeMap) (index s : Z) : wf m ->
  per m 0 = false -> per m 1 = false -> per m 2 = false ->
  StronglySorted Z.lt (neighbours_at m index s).
Proof.
  intros Hwf P0 P1 P2. unfold neighbours_at.
  destruct (indexToCell m index) as [[[ci cj] ck]|]; [|constructor].
  apply neighbours_of_sorted; assumption.
Qed.

(** ** Extra properties read off the code

    Like the claims, each property assumes [int] bounds ([int_map],
    [int_shell] or explicit ones) under which the [Z] model computes what
    the 32-bit code computes. *)

(** The decoder rejects no index: an index below zero takes no iteration
    of any loop and decodes to the cell (0, 0, 0), so [neighbourIndices]
    of a negative index (an [int], so at least [INT_MIN]) is that of
    index 0, for a shell radius [s >= 0] within [int_shell]. *)
Theorem indexToCell_negative_index (m : LatticeMap) (index s : Z)
    (R_int : int_map m) (R_min : INT_MIN <= index) (R_s : 0 <= s)
    (R_shell : int_shell m s) :
  wf m -> index < 0 ->
  indexToCell m index = Some (0, 0, 0) /\
  neighbourIndices m index s = neighbourIndices m 0 s.
Proof.
  intros Hwf Hidx. pose proof Hwf as (Hn & _).
  assert (E : indexToCell m index = Some (0, 0, 0))
    by (apply indexToCell_first_cell; [exact Hwf|lia]).
  split; [exact E|].
  unfold neighbourIndices. rewrite E, indexToCell_first_cell by (auto; lia).
  reflexivity.
Qed.

Lemma indexToCell_negative_index_witness :
  indexToCell (mkLatticeMap 2 [2; 3; 4] [true; false; true]) (-7)
    = Some (0, 0, 0) /\
  neighbourIndices (mkLatticeMap 2 [2; 3; 4] [true; false; true]) (-7) 1
    = neighbourIndices (mkLatticeMap 2 [2; 3; 4] [true; false; true]) 0 1.
Proof.
  apply (indexToCell_negative_index
           (mkLatticeMap 2 [2; 3; 4] [true; false; true]) (-7) 1).
  - cbv [int_map int_shell wf totalSites rep INT_MIN INT_MAX]. simpl. repeat split; lia.
  - cbv [int_map int_shell wf totalSites rep INT_MIN INT_MAX]. simpl. repeat split; lia.
  - cbv [int_map int_shell wf totalSites rep INT_MIN INT_MAX]. simpl. repeat split; lia.
  - cbv [int_map int_shell wf totalSites rep INT_MIN INT_MAX]. simpl. repeat split; lia.
  - unfold wf, rep. simpl. repeat split; lia.
  - lia.
Defined.

(** No range check either at the top: an index at or past [totalSites]
    decodes to a cell with [i >= Ra] (and [j], [k] in range); on a
    non-periodic first axis [neighbourIndices] with shell 0 then returns
    no index at all, not even the queried one.  Assumed: [index] is an
    [int] and [index / basisCount + Rb*Rc <= INT_MAX], which keeps the
    decode loops' comparison values in range. *)
Theorem indexToCell_past_end (m : LatticeMap) (index : Z)
    (R_max : index <= INT_MAX)
    (R_int : index / n_basis_ m + rep m 1 * rep m 2 <= INT_MAX) :
  wf m -> totalSites m <= index ->
  exists i j k, indexToCell m index = Some (i, j, k) /\
    rep m 0 <= i /\ 0 <= j < rep m 1 /\ 0 <= k < rep m 2 /\
    (per m 0 = false -> forall st, buffer_fits m st ->
     exists st', neighbourIndices m index 0 st = inr ([], st')).
Proof.
  intros Hwf Hidx. pose proof Hwf as (Hn & _ & _ & H0 & H1 & H2).
  unfold totalSites in Hidx.
  assert (Hcl : rep m 0 * (rep m 1 * rep m 2) <= index / n_basis_ m).
  { apply Z.div_le_lower_bound; nia. }
  assert (Hi : rep m 0 <= index / n_basis_ m / (rep m 1 * rep m 2)).
  { apply Z.div_le_lower_bound; nia. }
  rewrite indexToCell_closed by (auto; nia). cbv zeta.
  do 3 eexists. split; [reflexivity|].
  split; [exact Hi|].
  split; [apply Z.mod_pos_bound; lia|].
  split; [apply Z.mod_pos_bound; lia|].
  intros P0 st Hfit.
  destruct (neighbourIndices_run m index 0 _ _ _ st Hwf
              (indexToCell_closed m index Hwf ltac:(nia)) ltac:(lia) Hfit)
    as (st' & E & _).
  exists st'. rewrite E. do 2 f_equal.
  unfold neighbours_of. rewrite P0, axis_cells_nonperiodic.
  rewrite filter_none; [reflexivity|].
  intros x Hx. apply in_zrange in Hx. unfold in_bounds.
  apply andb_false_iff. right. apply Z.ltb_ge. lia.
Qed.

Lemma indexToCell_past_end_witness :
  exists i j k,
    indexToCell (mkLatticeMap 2 [2; 3; 4] [false; false; true]) 50
      = Some (i, j, k) /\
    2 <= i /\ 0 <= j < 3 /\ 0 <= k < 4 /\
    (per (mkLatticeMap 2 [2; 3; 4] [false; false; true]) 0 = false ->
     forall st, buffer_fits (mkLatticeMap 2 [2; 3; 4] [false; false; true]) st ->
     exists st', neighbourIndices (mkLatticeMap 2 [2; 3; 4] [false; false; true])
                   50 0 st = inr ([], st')).
Proof.
  apply (indexToCell_past_end (mkLatticeMap 2 [2; 3; 4] [false; false; true]) 50).
  - cbv [INT_MAX]. lia.
  - apply Z.leb_le. reflexivity.
  - unfold wf, rep. simpl. repeat split; lia.
  - unfold totalSites, rep. simpl. lia.
Defined.

(** With a repetition count of 0 on axis b or c (which the constructor
    accepts), the first decode loop adds 0 to its comparison value and
    never exits normally for a non-negative index: the model runs out of
    every fuel, so [indexToCell] and [neighbourIndices] have no result.
    In C++ the loop only ends by the signed overflow of [++cell_i]
    (undefined behaviour).  Assumed: arrays of length 3, a positive
    basisCount and [index < INT_MAX] (so [idx] is an [int]). *)
Theorem indexToCell_zero_repetition_diverges (m : LatticeMap)
    (index s : Z) (st : store)
    (R_len : length (repetitions_ m) = 3%nat)
    (R_plen : length (periodic_ m) = 3%nat) (R_max : index < INT_MAX) :
  0 < n_basis_ m -> rep m 1 * rep m 2 = 0 -> 0 <= index ->
  (forall fuel, count_while fuel 0 (rep m 1 * rep m 2) (rep m 1 * rep m 2)
                  (Z.quot index (n_basis_ m) + 1) = None) /\
  indexToCell m index = None /\
  neighbourIndices m index s st = inl NoTermination.
Proof.
  intros Hn Hz Hidx.
  pose proof (Z.quot_pos index (n_basis_ m) Hidx Hn) as Hq.
  assert (Hloop : forall fuel, count_while fuel 0 (rep m 1 * rep m 2)
                    (rep m 1 * rep m 2) (Z.quot index (n_basis_ m) + 1) = None).
  { intros fuel. rewrite Hz. apply count_while_stuck. lia. }
  assert (E : indexToCell m index = None).
  { unfold indexToCell. cbv zeta. rewrite Hloop. reflexivity. }
  split; [exact Hloop|]. split; [exact E|].
  unfold neighbourIndices. rewrite E. reflexivity.
Qed.

Lemma indexToCell_zero_repetition_diverges_witness :
  (forall fuel, count_while fuel 0 (rep (mkLatticeMap 1 [2; 0; 3] [true; true; true]) 1
                   * rep (mkLatticeMap 1 [2; 0; 3] [true; true; true]) 2)
                  (rep (mkLatticeMap 1 [2; 0; 3] [true; true; true]) 1
                   * rep (mkLatticeMap 1 [2; 0; 3] [true; true; true]) 2)
                  (Z.quot 4 1 + 1) = None) /\
  indexToCell (mkLatticeMap 1 [2; 0; 3] [true; true; true]) 4 = None /\
  neighbourIndices (mkLatticeMap 1 [2; 0; 3] [true; true; true]) 4 1
    (mkStore [0]) = inl NoTermination.
Proof.
  apply (indexToCell_zero_repetition_diverges
           (mkLatticeMap 1 [2; 0; 3] [true; true; true]) 4 1 (mkStore [0])).
  - cbv [int_map int_shell wf totalSites rep INT_MIN INT_MAX]. simpl. repeat split; lia.
  - cbv [int_map int_shell wf totalSites rep INT_MIN INT_MAX]. simpl. repeat split; lia.
  - cbv [int_map int_shell wf totalSites rep INT_MIN INT_MAX]. simpl. repeat split; lia.
  - simpl. lia.
  - reflexivity.
  - lia.
Defined.

(** Encode then decode: every value [indicesFromCell(i,j,k)] writes for a
    cell of the grid is a valid site index that [indexToCell] maps back
    to (i, j, k), and its position in the cell is its remainder modulo
    basisCount. *)
Theorem indicesFromCell_then_indexToCell (m : LatticeMap) (st : store)
    (i j k : Z)
    (R_int : int_map m) :
  wf m -> buffer_fits m st ->
  0 <= i < rep m 0 -> 0 <= j < rep m 1 -> 0 <= k < rep m 2 ->
  exists st', indicesFromCell m i j k st = inr (TmpCellIndices, st') /\
    forall l, 0 <= l < n_basis_ m ->
      exists x, nth_error (deref st' TmpCellIndices) (Z.to_nat l) = Some x /\
        0 <= x < totalSites m /\ indexToCell m x = Some (i, j, k) /\
        x mod n_basis_ m = l.
Proof.
  intros Hwf Hfit Hi Hj Hk. pose proof Hwf as (Hn & _ & _ & H0 & H1 & H2).
  eexists. rewrite indicesFromCell_run by (lia || exact Hfit).
  split; [reflexivity|]. intros l Hl. simpl.
  rewrite nth_error_app1 by (rewrite length_cell_indices; lia).
  rewrite nth_error_cell_indices by exact Hl.
  eexists. split; [reflexivity|].
  destruct (flat_decode m i j k l Hwf Hi Hj Hk Hl) as (_ & Hr & Hd).
  split; [|split; assumption].
  unfold totalSites.
  assert (i * rep m 1 + j < rep m 0 * rep m 1) by nia.
  assert ((i * rep m 1 + j) * rep m 2 + k < rep m 0 * rep m 1 * rep m 2)
    by nia.
  split; nia.
Qed.

Lemma indicesFromCell_then_indexToCell_witness :
  exists st', indicesFromCell (mkLatticeMap 2 [2; 3; 4] [true; false; true])
                1 2 3 (mkStore [0; 0]) = inr (TmpCellIndices, st') /\
    forall l, 0 <= l < 2 ->
      exists x, nth_error (deref st' TmpCellIndices) (Z.to_nat l) = Some x /\
        0 <= x < totalSites (mkLatticeMap 2 [2; 3; 4] [true; false; true]) /\
        indexToCell (mkLatticeMap 2 [2; 3; 4] [true; false; true]) x
          = Some (1, 2, 3) /\
        x mod 2 = l.
Proof.
  apply (indicesFromCell_then_indexToCell
           (mkLatticeMap 2 [2; 3; 4] [true; false; true]) (mkStore [0; 0]) 1 2 3).
  - cbv [int_map int_shell wf totalSites rep INT_MIN INT_MAX]. simpl. repeat split; lia.
  - unfold wf, rep. simpl. repeat split; lia.
  - unfold buffer_fits. simpl. lia.
  - unfold rep. simpl. lia.
  - unfold rep. simpl. lia.
  - unfold rep. simpl. lia.
Defined.

(** [indicesFromCell] overwrites only the first basisCount entries of the
    shared buffer: its length and the entries past basisCount (left by a
    map with a larger basisCount) are unchanged.  Stated for cells of the
    grid of a well-formed map whose [totalSites] fits in an [int]. *)
Theorem indicesFromCell_frame (m : LatticeMap) (st : store) (i j k : Z)
    (R_wf : wf m) (R_int : int_map m)
    (R_i : 0 <= i < rep m 0) (R_j : 0 <= j < rep m 1) (R_k : 0 <= k < rep m 2) :
  0 <= n_basis_ m -> buffer_fits m st ->
  exists st', indicesFromCell m i j k st = inr (TmpCellIndices, st') /\
    length (deref st' TmpCellIndices) = length (tmp_cell_indices__ st) /\
    drop (Z.to_nat (n_basis_ m)) (deref st' TmpCellIndices)
      = drop (Z.to_nat (n_basis_ m)) (tmp_cell_indices__ st).
Proof.
  intros Hn Hfit. eexists. rewrite indicesFromCell_run by assumption.
  split; [reflexivity|]. simpl. unfold buffer_fits in Hfit.
  pose proof (length_cell_indices m i j k Hn) as Hl.
  split.
  - rewrite length_app, length_drop. lia.
  - rewrite drop_app_length' by (symmetry; exact Hl). reflexivity.
Qed.

Lemma indicesFromCell_frame_witness :
  exists st', indicesFromCell (mkLatticeMap 1 [1; 1; 2] [false; false; false])
                0 0 1 (mkStore [7; 8; 9]) = inr (TmpCellIndices, st') /\
    length (deref st' TmpCellIndices) = length [7; 8; 9] /\
    drop (Z.to_nat 1) (deref st' TmpCellIndices) = drop (Z.to_nat 1) [7; 8; 9].
Proof.
  apply (indicesFromCell_frame (mkLatticeMap 1 [1; 1; 2] [false; false; false])
           (mkStore [7; 8; 9]) 0 0 1).
  - cbv [int_map int_shell wf totalSites rep INT_MIN INT_MAX]. simpl. repeat split; lia.
  - cbv [int_map int_shell wf totalSites rep INT_MIN INT_MAX]. simpl. repeat split; lia.
  - cbv [int_map int_shell wf totalSites rep INT_MIN INT_MAX]. simpl. repeat split; lia.
  - cbv [int_map int_shell wf totalSites rep INT_MIN INT_MAX]. simpl. repeat split; lia.
  - cbv [int_map int_shell wf totalSites rep INT_MIN INT_MAX]. simpl. repeat split; lia.
  - simpl. lia.
  - unfold buffer_fits. simpl. lia.
Defined.



(** For a valid index and a shell radius [s >= 0] the site itself is
    among its neighbours (the candidate offset 0 on every axis). *)
Theorem neighbourIndices_contains_index (m : LatticeMap) (st : store)
    (index s : Z)
    (R_int : int_map m) (R_shell : int_shell m s) :
  wf m -> buffer_fits m st -> 0 <= index < totalSites m -> 0 <= s ->
  exists out st', neighbourIndices m index s st = inr (out, st') /\
    In index out.
Proof.
  intros Hwf Hfit Hidx Hs.
  destruct (neighbourIndices_valid m index s st Hwf Hidx Hs Hfit)
    as (st' & E & _).
  exists (neighbours_at m index s), st'. split; [exact E|].
  apply neighbours_at_self; assumption.
Qed.

Lemma neighbourIndices_contains_index_witness :
  exists out st',
    neighbourIndices (mkLatticeMap 2 [2; 3; 4] [true; false; true]) 41 1
      (mkStore [0; 0]) = inr (out, st') /\ In 41 out.
Proof.
  apply (neighbourIndices_contains_index
           (mkLatticeMap 2 [2; 3; 4] [true; false; true]) (mkStore [0; 0]) 41 1).
  - cbv [int_map int_shell wf totalSites rep INT_MIN INT_MAX]. simpl. repeat split; lia.
  - cbv [int_map int_shell wf totalSites rep INT_MIN INT_MAX]. simpl. repeat split; lia.
  - unfold wf, rep. simpl. repeat split; lia.
  - unfold buffer_fits. simpl. lia.
  - unfold totalSites, rep. simpl. lia.
  - lia.
Defined.

(** The neighbour relation is symmetric: for valid sites [x] and [y],
    [y] is in the neighbour list of [x] exactly when [x] is in that of
    [y], for every shell radius, on periodic and non-periodic axes
    alike (the single wrap included). *)
Theorem neighbourIndices_symmetric (m : LatticeMap) (st : store)
    (x y s : Z)
    (R_int : int_map m) (R_shell : int_shell m s) :
  wf m -> buffer_fits m st -> 0 <= x < totalSites m ->
  0 <= y < totalSites m -> 0 <= s ->
  exists nx ny st1 st2,
    neighbourIndices m x s st = inr (nx, st1) /\
    neighbourIndices m y s st = inr (ny, st2) /\
    (In y nx <-> In x ny).
Proof.
  intros Hwf Hfit Hx Hy Hs.
  destruct (indexToCell_range m x Hwf Hx)
    as (xi & xj & xk & Hcx & Hxi & Hxj & Hxk & _).
  destruct (indexToCell_range m y Hwf Hy)
    as (yi & yj & yk & Hcy & Hyi & Hyj & Hyk & _).
  destruct (neighbourIndices_run m x s xi xj xk st Hwf Hcx Hs Hfit)
    as (st1 & E1 & _).
  destruct (neighbourIndices_run m y s yi yj yk st Hwf Hcy Hs Hfit)
    as (st2 & E2 & _).
  exists (neighbours_of m xi xj xk s), (neighbours_of m yi yj yk s), st1, st2.
  split; [exact E1|]. split; [exact E2|].
  rewrite (in_neighbours_of_cell m xi xj xk s y yi yj yk Hwf Hy Hcy).
  rewrite (in_neighbours_of_cell m yi yj yk s x xi xj xk Hwf Hx Hcx).
  split; intros (Ha & Hb & Hc); repeat split;
    (apply axis_cells_symmetric; [lia|lia|assumption]).
Qed.

Lemma neighbourIndices_symmetric_witness :
  exists nx ny st1 st2,
    neighbourIndices (mkLatticeMap 1 [2; 3; 4] [true; false; true]) 3 1
      (mkStore [0]) = inr (nx, st1) /\
    neighbourIndices (mkLatticeMap 1 [2; 3; 4] [true; false; true]) 12 1
      (mkStore [0]) = inr (ny, st2) /\
    (In 12 nx <-> In 3 ny).
Proof.
  apply (neighbourIndices_symmetric
           (mkLatticeMap 1 [2; 3; 4] [true; false; true]) (mkStore [0]) 3 12 1).
  - cbv [int_map int_shell wf totalSites rep INT_MIN INT_MAX]. simpl. repeat split; lia.
  - cbv [int_map int_shell wf totalSites rep INT_MIN INT_MAX]. simpl. repeat split; lia.
  - unfold wf, rep. simpl. repeat split; lia.
  - unfold buffer_fits. simpl. lia.
  - unfold totalSites, rep. simpl. lia.
  - unfold totalSites, rep. simpl. lia.
  - lia.
Defined.





(** On a map with no periodic axis and a shell radius reaching across
    every axis ([R <= s + 1]), [neighbourIndices] of any valid index
    returns every site index, [0, 1, ..., totalSites - 1], in order. *)
Theorem neighbourIndices_whole_grid (m : LatticeMap) (st : store)
    (index s : Z)
    (R_int : int_map m) (R_shell : int_shell m s) :
  wf m -> buffer_fits m st -> 0 <= index < totalSites m ->
  per m 0 = false -> per m 1 = false -> per m 2 = false ->
  rep m 0 <= s + 1 -> rep m 1 <= s + 1 -> rep m 2 <= s + 1 ->
  exists st', neighbourIndices m index s st
              = inr (zrange 0 (totalSites m - 1), st').
Proof.
  intros Hwf Hfit Hidx P0 P1 P2 S0 S1 S2.
  pose proof Hwf as (Hn & _ & _ & H0 & H1 & H2).
  destruct (indexToCell_range m index Hwf Hidx)
    as (ci & cj & ck & Hc & Hi & Hj & Hk & _).
  destruct (neighbourIndices_run m index s ci cj ck st Hwf Hc ltac:(lia) Hfit)
    as (st' & E & _).
  exists st'. rewrite E. do 2 f_equal.
  apply sorted_lt_ext; [apply neighbours_of_sorted; assumption
                       |apply zrange_sorted|].
  intros x. rewrite in_zrange. split.
  - intros Hx. pose proof (neighbours_of_range m ci cj ck s x Hwf Hx). lia.
  - intros Hx. assert (Hx' : 0 <= x < totalSites m) by lia.
    destruct (indexToCell_range m x Hwf Hx')
      as (a & b & c & Hcx & Ha & Hb & Hc' & _).
    apply (in_neighbours_of_cell m ci cj ck s x a b c Hwf Hx' Hcx).
    rewrite P0, P1, P2, !axis_cells_nonperiodic.
    split; [|split]; apply filter_In;
      (split; [apply in_zrange; lia|]);
      unfold in_bounds; apply andb_true_iff;
      (split; [apply Z.leb_le|apply Z.ltb_lt]); lia.
Qed.

Lemma neighbourIndices_whole_grid_witness :
  exists st', neighbourIndices (mkLatticeMap 1 [2; 2; 3] [false; false; false])
                5 2 (mkStore [0])
              = inr (zrange 0 (totalSites (mkLatticeMap 1 [2; 2; 3]
                                              [false; false; false]) - 1), st').
Proof.
  apply (neighbourIndices_whole_grid
           (mkLatticeMap 1 [2; 2; 3] [false; false; false]) (mkStore [0]) 5 2).
  - cbv [int_map int_shell wf totalSites rep INT_MIN INT_MAX]. simpl. repeat split; lia.
  - cbv [int_map int_shell wf totalSites rep INT_MIN INT_MAX]. simpl. repeat split; lia.
  - unfold wf, rep. simpl. repeat split; lia.
  - unfold buffer_fits. simpl. lia.
  - unfold totalSites, rep. simpl. lia.
  - reflexivity.
  - reflexivity.
  - reflexivity.
  - unfold rep. simpl. lia.
  - unfold rep. simpl. lia.
  - unfold rep. simpl. lia.
Defined.

(** On a map periodic on every axis, with [s <= R] on each axis, the
    result fills exactly the [(2s+1)^3 * basisCount] entries the code
    preallocates as [n_neighbours]: the final resize drops nothing. *)
Theorem neighbourIndices_periodic_full_count (m : LatticeMap) (st : store)
    (index s : Z)
    (R_int : int_map m) (R_shell : int_shell m s) :
  wf m -> buffer_fits m st -> 0 <= index < totalSites m -> 0 <= s ->
  per m 0 = true -> per m 1 = true -> per m 2 = true ->
  s <= rep m 0 -> s <= rep m 1 -> s <= rep m 2 ->
  exists out st', neighbourIndices m index s st = inr (out, st') /\
    Z.of_nat (length out) = (2 * s + 1) ^ 3 * n_basis_ m.
Proof.
  intros Hwf Hfit Hidx Hs P0 P1 P2 S0 S1 S2.
  pose proof Hwf as (Hn & _).
  destruct (indexToCell_range m index Hwf Hidx)
    as (ci & cj & ck & Hc & Hi & Hj & Hk & _).
  destruct (neighbourIndices_run m index s ci cj ck st Hwf Hc Hs Hfit)
    as (st' & E & _).
  exists (neighbours_of m ci cj ck s), st'. split; [exact E|].
  rewrite length_neighbours_of by lia. rewrite P0, P1, P2.
  rewrite !axis_cells_small_shell by (assumption || (intros; assumption)).
  unfold spec_axis_cells. rewrite !length_map, !length_zrange.
  rewrite !Nat2Z.inj_mul, !Z2Nat.id by lia. ring.
Qed.

Lemma neighbourIndices_periodic_full_count_witness :
  exists out st',
    neighbourIndices (mkLatticeMap 1 [2; 3; 2] [true; true; true]) 7 2
      (mkStore [0]) = inr (out, st') /\
    Z.of_nat (length out) = (2 * 2 + 1) ^ 3 * 1.
Proof.
  apply (neighbourIndices_periodic_full_count
           (mkLatticeMap 1 [2; 3; 2] [true; true; true]) (mkStore [0]) 7 2).
  - cbv [int_map int_shell wf totalSites rep INT_MIN INT_MAX]. simpl. repeat split; lia.
  - cbv [int_map int_shell wf totalSites rep INT_MIN INT_MAX]. simpl. repeat split; lia.
  - unfold wf, rep. simpl. repeat split; lia.
  - unfold buffer_fits. simpl. lia.
  - unfold totalSites, rep. simpl. lia.
  - lia.
  - reflexivity.
  - reflexivity.
  - reflexivity.
  - unfold rep. simpl. lia.
  - unfold rep. simpl. lia.
  - unfold rep. simpl. lia.
Defined.



(** [supersetNeighbourIndices] of valid indices contains every input
    index and only valid site indices. *)
Theorem supersetNeighbourIndices_contains_inputs (m : LatticeMap)
    (st : store) (indices : list Z)
    (R_int : int_map m) (R_shell : int_shell m 1) :
  wf m -> buffer_fits m st ->
  (forall y, In y indices -> 0 <= y < totalSites m) ->
  exists out st', supersetNeighbourIndices m indices st = inr (out, st') /\
    (forall y, In y indices -> In y out) /\
    (forall x, In x out -> 0 <= x < totalSites m).
Proof.
  intros Hwf Hfit Hval.
  destruct (supersetNeighbourIndices_run m indices st Hwf Hfit Hval)
    as (st' & E & _).
  eexists _, st'. split; [exact E|]. split.
  - intros y Hy. apply sort_unique_in. apply in_flat_map.
    exists y. split; [exact Hy|]. apply neighbours_at_self; auto; lia.
  - intros x Hx. rewrite sort_unique_in in Hx.
    apply in_flat_map in Hx as (y & _ & Hx).
    apply (neighbours_at_range m y 1 x Hwf Hx).
Qed.

Lemma supersetNeighbourIndices_contains_inputs_witness :
  exists out st',
    supersetNeighbourIndices (mkLatticeMap 2 [2; 3; 4] [true; false; true])
      [17; 3; 40] (mkStore [0; 0]) = inr (out, st') /\
    (forall y, In y [17; 3; 40] -> In y out) /\
    (forall x, In x out ->
       0 <= x < totalSites (mkLatticeMap 2 [2; 3; 4] [true; false; true])).
Proof.
  apply (supersetNeighbourIndices_contains_inputs
           (mkLatticeMap 2 [2; 3; 4] [true; false; true]) (mkStore [0; 0])
           [17; 3; 40]).
  - cbv [int_map int_shell wf totalSites rep INT_MIN INT_MAX]. simpl. repeat split; lia.
  - cbv [int_map int_shell wf totalSites rep INT_MIN INT_MAX]. simpl. repeat split; lia.
  - unfold wf, rep. simpl. repeat split; lia.
  - unfold buffer_fits. simpl. lia.
  - intros y Hy. unfold totalSites, rep. simpl in *.
    destruct Hy as [<-|[<-|[<-|[]]]]; lia.
Defined.

(** On a map with no periodic axis, the number of indices
    [neighbourIndices] returns for a valid index is basisCount times, on
    each axis, the number of coordinates of [[c - s, c + s]] inside
    [[0, R)]. *)
Theorem neighbourIndices_nonperiodic_count (m : LatticeMap) (st : store)
    (index s : Z)
    (R_int : int_map m) (R_shell : int_shell m s) :
  wf m -> buffer_fits m st -> 0 <= index < totalSites m -> 0 <= s ->
  per m 0 = false -> per m 1 = false -> per m 2 = false ->
  exists ci cj ck out st', indexToCell m index = Some (ci, cj, ck) /\
    neighbourIndices m index s st = inr (out, st') /\
    Z.of_nat (length out)
    = (Z.min (rep m 0 - 1) (ci + s) - Z.max 0 (ci - s) + 1)
      * (Z.min (rep m 1 - 1) (cj + s) - Z.max 0 (cj - s) + 1)
      * (Z.min (rep m 2 - 1) (ck + s) - Z.max 0 (ck - s) + 1)
      * n_basis_ m.
Proof.
  intros Hwf Hfit Hidx Hs P0 P1 P2. pose proof Hwf as (Hn & _).
  destruct (indexToCell_range m index Hwf Hidx)
    as (ci & cj & ck & Hc & Hi & Hj & Hk & _).
  destruct (neighbourIndices_run m index s ci cj ck st Hwf Hc Hs Hfit)
    as (st' & E & _).
  exists ci, cj, ck, (neighbours_of m ci cj ck s), st'.
  split; [exact Hc|]. split; [exact E|].
  rewrite length_neighbours_of by lia. rewrite P0, P1, P2.
  rewrite !axis_cells_nonperiodic, !filter_in_bounds_zrange, !length_zrange.
  rewrite !Nat2Z.inj_mul, !Z2Nat.id by lia. ring.
Qed.

Lemma neighbourIndices_nonperiodic_count_witness :
  exists ci cj ck out st',
    indexToCell (mkLatticeMap 2 [2; 3; 4] [false; false; false]) 17
      = Some (ci, cj, ck) /\
    neighbourIndices (mkLatticeMap 2 [2; 3; 4] [false; false; false]) 17 1
      (mkStore [0; 0]) = inr (out, st') /\
    Z.of_nat (length out)
    = (Z.min (2 - 1) (ci + 1) - Z.max 0 (ci - 1) + 1)
      * (Z.min (3 - 1) (cj + 1) - Z.max 0 (cj - 1) + 1)
      * (Z.min (4 - 1) (ck + 1) - Z.max 0 (ck - 1) + 1) * 2.
Proof.
  apply (neighbourIndices_nonperiodic_count
           (mkLatticeMap 2 [2; 3; 4] [false; false; false]) (mkStore [0; 0]) 17 1).
  - cbv [int_map int_shell wf totalSites rep INT_MIN INT_MAX]. simpl. repeat split; lia.
  - cbv [int_map int_shell wf totalSites rep INT_MIN INT_MAX]. simpl. repeat split; lia.
  - unfold wf, rep. simpl. repeat split; lia.
  - unfold buffer_fits. simpl. lia.
  - unfold totalSites, rep. simpl. lia.
  - lia.
  - reflexivity.
  - reflexivity.
  - reflexivity.
Defined.

(** On a map with no periodic axis, [supersetNeighbourIndices] of a
    single valid index returns exactly what [neighbourIndices] returns for
    it with shell 1: that list is already ascending without repeats, so
    the sort and the unique leave it as it is. *)
Theorem supersetNeighbourIndices_single_nonperiodic (m : LatticeMap)
    (st : store) (y : Z)
    (R_int : int_map m) (R_shell : int_shell m 1) :
  wf m -> buffer_fits m st -> 0 <= y < totalSites m ->
  per m 0 = false -> per m 1 = false -> per m 2 = false ->
  exists out st1 st2, neighbourIndices m y 1 st = inr (out, st1) /\
    supersetNeighbourIndices m [y] st = inr (out, st2).
Proof.
  intros Hwf Hfit Hy P0 P1 P2.
  destruct (neighbourIndices_valid m y 1 st Hwf Hy ltac:(lia) Hfit)
    as (st1 & E1 & _).
  destruct (supersetNeighbourIndices_run m [y] st Hwf Hfit)
    as (st2 & E2 & _).
  { intros z [<-|[]]. exact Hy. }
  exists (neighbours_at m y 1), st1, st2. split; [exact E1|].
  rewrite E2. do 2 f_equal. cbn [flat_map]. rewrite app_nil_r.
  apply sorted_lt_ext;
    [apply sort_unique_sorted|apply neighbours_at_sorted; assumption|].
  intros x. apply sort_unique_in.
Qed.

Lemma supersetNeighbourIndices_single_nonperiodic_witness :
  exists out st1 st2,
    neighbourIndices (mkLatticeMap 2 [2; 3; 4] [false; false; false]) 17 1
      (mkStore [0; 0]) = inr (out, st1) /\
    supersetNeighbourIndices (mkLatticeMap 2 [2; 3; 4] [false; false; false])
      [17] (mkStore [0; 0]) = inr (out, st2).
Proof.
  apply (supersetNeighbourIndices_single_nonperiodic
           (mkLatticeMap 2 [2; 3; 4] [false; false; false]) (mkStore [0; 0]) 17).
  - cbv [int_map int_shell wf totalSites rep INT_MIN INT_MAX]. simpl. repeat split; lia.
  - cbv [int_map int_shell wf totalSites rep INT_MIN INT_MAX]. simpl. repeat split; lia.
  - unfold wf, rep. simpl. repeat split; lia.
  - unfold buffer_fits. simpl. lia.
  - unfold totalSites, rep. simpl. lia.
  - reflexivity.
  - reflexivity.
  - reflexivity.
Defined.
